(** * ListMan: a shallow embedding of [listman.py]

    ListMan unifies word lists into one sorted master word list.  This file
    embeds the ingestion pipeline of [src/listman.py] (enumeration of the
    sources, the ledger, the checkpoint, the worker pool, the merge loop and
    the master store) and proves the properties of its specification.

    Modelling conventions.
    - A Python [str] is a [string]; a character is a code point, and the
      model carries the code points below 256 (what [ascii] holds).
    - A Python [set] of strings is a [gset string]; [sorted] is a merge sort
      for the code-point order, applied to the elements of the set.
    - Files are held as decoded text.  Text mode is the default one of
      [open], [gzip.open] and [bz2.open]: universal newlines when reading,
      POSIX line ends when writing.
    - The input tree (files and folders named on the command line), the log
      files, the checkpoint file and the three master files are separate
      components of the disk: the program's own files are regular files that
      are not among its sources.
    - Threads are interleaved by an explicit schedule: a list of events, one
      per atomic step of a pool thread, of the merge loop, of the signal
      handler, or of a failing read.  SIGINT is handled by [signal_handler],
      so no [KeyboardInterrupt] is raised.
    - Writes to the log, the checkpoint and the master succeed; what is
      printed with a "[+]" prefix is left out, the "[-]" reports are kept. *)

From stdpp Require Import base strings gmap list sorting pretty.
From Stdlib Require Import Ascii.
From Stdlib Require String.

Local Open Scope stdpp_scope.
#[local] Set Warnings "-clear-no-such-hyp".

(** ** Text primitives *)

Module Text.

Definition LF : ascii := "010"%char.
Definition CR : ascii := "013"%char.
Definition BAR : ascii := "|"%char.

(** [str.isspace] on one code point below 256: TAB..CR, FS..US, space,
    NEL (133) and NBSP (160). *)
Definition py_isspace (c : ascii) : bool :=
  let n := nat_of_ascii c in
  ((9 <=? n) && (n <=? 13)) || ((28 <=? n) && (n <=? 32))
  || (n =? 133) || (n =? 160).

Fixpoint lstrip (s : string) : string :=
  match s with
  | "" => ""
  | String c s' => if py_isspace c then lstrip s' else s
  end.

Fixpoint rstrip (s : string) : string :=
  match s with
  | "" => ""
  | String c s' =>
      match rstrip s' with
      | "" => if py_isspace c then "" else String c ""
      | r => String c r
      end
  end.

(** [s.strip()] *)
Definition strip (s : string) : string := lstrip (rstrip s).

(** What [open(path, "r")] does to the line ends of the decoded text
    (newline=None): CR LF and a lone CR both become LF. *)
Fixpoint universal_newlines (s : string) : string :=
  match s with
  | "" => ""
  | String c s' =>
      if Ascii.eqb c CR then
        match s' with
        | String c' s'' =>
            if Ascii.eqb c' LF then String LF (universal_newlines s'')
            else String LF (universal_newlines s')
        | "" => String LF ""
        end
      else String c (universal_newlines s')
  end.

(** The lines a file object yields when iterated: each one keeps its
    terminating LF, the last one may lack it. *)
Fixpoint split_lines (s : string) : list string :=
  match s with
  | "" => []
  | String c s' =>
      if Ascii.eqb c LF then String LF "" :: split_lines s'
      else match split_lines s' with
           | [] => [String c ""]
           | l :: ls => String c l :: ls
           end
  end.

(** [for line in infile] over a file holding [text]. *)
Definition file_lines (text : string) : list string :=
  split_lines (universal_newlines text).

(** [outfile.write(word + "\n")] for each word in turn. *)
Fixpoint write_lines (ws : list string) : string :=
  match ws with
  | [] => ""
  | w :: ws' => w +:+ String LF (write_lines ws')
  end.

(** [s.split(sep)] for a one-character separator. *)
Fixpoint split_on (sep : ascii) (s : string) : list string :=
  match s with
  | "" => [""]
  | String c s' =>
      if Ascii.eqb c sep then "" :: split_on sep s'
      else match split_on sep s' with
           | [] => [String c ""]
           | p :: ps => String c p :: ps
           end
  end.

(** [f"{s:<n}"]: pad with spaces on the right up to width [n]. *)
Fixpoint ljust (n : nat) (s : string) : string :=
  match s, n with
  | "", _ => String.string_of_list_ascii (replicate n " "%char)
  | String c s', 0 => s
  | String c s', S n' => String c (ljust n' s')
  end.

Fixpoint mem_char (c : ascii) (s : string) : bool :=
  match s with
  | "" => false
  | String c' s' => Ascii.eqb c c' || mem_char c s'
  end.

Definition first_char (s : string) : option ascii :=
  match s with "" => None | String c _ => Some c end.

Fixpoint last_char (s : string) : option ascii :=
  match s with
  | "" => None
  | String c s' => match s' with "" => Some c | _ => last_char s' end
  end.

(** A word as the data model has it: not empty, no line end inside (LF or
    CR, the two characters text mode reads as a line end), no white space
    at either end. *)
Definition is_word (w : string) : bool :=
  negb (mem_char LF w) && negb (mem_char CR w)
  && match first_char w with Some c => negb (py_isspace c) | None => false end
  && match last_char w with Some c => negb (py_isspace c) | None => false end.

(** A string that holds no line end: what a line of a text file, with its
    terminator removed, can be. *)
Definition one_line (w : string) : bool :=
  negb (mem_char LF w) && negb (mem_char CR w).

End Text.

Import Text.

(** ** The disk *)

(** A node of the input tree.  A folder carries what
    [glob.glob(os.path.join(folder, "*.txt"))] returns for it. *)
Inductive node :=
| File (text : string)
| Folder (txt : list string).

(** The input tree and the files the program keeps for itself are separate
    fields: the model covers the runs in which no input path names the
    master, the log or the checkpoint file. *)
Record disk := Disk {
  tree : gmap string node;          (* files and folders given as inputs *)
  logs : gmap string string;        (* log files, by path *)
  resume_file : option (list string); (* RESUME_FILE: absent, or its JSON array *)
  master_txt : option string;       (* MASTER_FILE *)
  master_gz : option string;        (* MASTER_FILE + ".gz", compressed bytes *)
  master_bz2 : option string        (* MASTER_FILE + ".bz2", compressed bytes *)
}.

Definition set_logs (l : gmap string string) (d : disk) : disk :=
  Disk (tree d) l (resume_file d) (master_txt d) (master_gz d) (master_bz2 d).

Definition set_resume_file (r : option (list string)) (d : disk) : disk :=
  Disk (tree d) (logs d) r (master_txt d) (master_gz d) (master_bz2 d).

(** [os.path.isfile], [os.path.isdir] and the glob of a folder. *)
Definition isfile (d : disk) (p : string) : bool :=
  match tree d !! p with Some (File _) => true | _ => false end.

Definition isdir (d : disk) (p : string) : bool :=
  match tree d !! p with Some (Folder _) => true | _ => false end.

Definition glob_txt (d : disk) (folder : string) : list string :=
  match tree d !! folder with Some (Folder l) => l | _ => [] end.

(** The reports the program prints with a "[-]" prefix. *)
Inductive message :=
| FileNotFound (f : string)
| FolderNotFound (folder : string)
| ErrorReading (path : string)
| NoMasterFound.

(** ** Logging and resume (lines 101-126) *)

Inductive action := CREATE | ADD.

Definition action_tag (a : action) : string :=
  match a with CREATE => "CREATE" | ADD => "ADD" end.

(** Python truth value of [log_path]: [None] and the empty string are false. *)
Definition truthy (log_path : option string) : bool :=
  match log_path with Some (String _ _) => true | _ => false end.

(** The line [log_action] writes; [now] is [datetime.now().isoformat()]. *)
Definition log_line (now : string) (a : action) (path : string)
    (word_count : nat) : string :=
  now +:+ " | " +:+ ljust 6 (action_tag a) +:+ " | " +:+ path +:+ " | "
  +:+ pretty word_count +:+ " words" +:+ String LF "".

(** [open(log_path, "a")] creates the file when it is missing. *)
Definition log_action (log_path : string) (now : string) (a : action)
    (path : string) (word_count : nat) (d : disk) : disk :=
  set_logs (<[log_path := default "" (logs d !! log_path)
                          +:+ log_line now a path word_count]> (logs d)) d.

(** One turn of the loop of [load_logged_files] (lines 111-114). *)
Definition logged_add (logged : gset string) (line : string) : gset string :=
  let parts := split_on BAR (strip line) in
  if bool_decide (3 ≤ length parts)
  then {[ strip (default "" (parts !! 2)) ]} ∪ logged
  else logged.

Definition load_logged_files (log_path : option string) (d : disk)
    : gset string :=
  match log_path with
  | Some (String c p) =>
      match logs d !! String c p with
      | Some text => foldl logged_add ∅ (file_lines text)
      | None => ∅
      end
  | _ => ∅
  end.

Definition save_resume_state (pending_files : list string) (d : disk) : disk :=
  set_resume_file (Some pending_files) d.

Definition load_resume_state (d : disk) : option (list string) :=
  resume_file d.

(** ** Selecting the sources (lines 149-181) *)

Record config := Config {
  files : list string;
  folders : list string;
  threads : Z;
  log_path : option string;
  skip_logged : bool;
  resume : bool
}.

(** The two loops over the inputs: [all_files] grows at its end, and each
    missing input is reported. *)
Definition scan_file (d : disk) (acc : list string * list message)
    (f : string) : list string * list message :=
  if isfile d f then (acc.1 ++ [f], acc.2)
  else (acc.1, acc.2 ++ [FileNotFound f]).

Definition scan_folder (d : disk) (acc : list string * list message)
    (folder : string) : list string * list message :=
  if isdir d folder then (acc.1 ++ glob_txt d folder, acc.2)
  else (acc.1, acc.2 ++ [FolderNotFound folder]).

Definition enumerate (fs fo : list string) (d : disk)
    : list string * list message :=
  foldl (scan_folder d) (foldl (scan_file d) ([], []) fs) fo.

(** [all_files] as it stands at line 181, or [None] when line 166 returns. *)
Definition select_sources (cfg : config) (d : disk) : option (list string) :=
  let all_files := (enumerate (files cfg) (folders cfg) d).1 in
  match all_files with
  | [] => None
  | _ =>
      let all_files :=
        if skip_logged cfg && truthy (log_path cfg)
        then filter (λ f, f ∉ load_logged_files (log_path cfg) d) all_files
        else all_files in
      let all_files :=
        if resume cfg then
          match load_resume_state d with
          | Some (p :: ps) => p :: ps
          | _ => all_files
          end
        else all_files in
      Some all_files
  end.

(** How many times [p] occurs in [l]. *)
Definition occurrences (p : string) (l : list string) : nat :=
  length (filter (λ q, q = p) l).

(** What a folder argument contributes to [all_files]. *)
Definition expansion (d : disk) (folder : string) : list string :=
  if isdir d folder then glob_txt d folder else [].

(** The paths handed to the pool: none when line 166 returns. *)
Definition dispatched (cfg : config) (d : disk) : list string :=
  default [] (select_sources cfg d).

(** ** The worker pool and the merge loop (lines 129-146 and 179-201) *)

(** Where a call of [collect_words_from_file] stands. *)
Inductive worker :=
| Queued                                        (* submitted, not started *)
| Reading (rest : list string) (ws : gset string) (* in the loop of line 136 *)
| AtLog (ws : gset string)                      (* at line 142 *)
| Returned (ws : gset string).                  (* future done, its result *)

Record task := Task {
  path : string;
  work : worker;
  yielded : bool     (* [as_completed] has handed the future to the loop *)
}.

(** Where [collect_words_from_inputs] stands. *)
Inductive phase :=
| Merging                       (* in the loop of line 186 *)
| Draining                      (* after [break]: the pool is shutting down *)
| Finished (ws : gset string)   (* line 201: [return words] *)
| SysExit                       (* line 196: [sys.exit(0)] *)
| Raised.                       (* an exception nobody catches *)

Record state := State {
  st_disk : disk;
  should_exit : bool;
  tasks : list task;
  words : gset string;
  st_phase : phase;
  st_out : list message;
  st_tick : nat        (* the number of steps taken, for the clock *)
}.

Inductive event :=
| Signal             (* SIGINT: [signal_handler] runs *)
| Work (i : nat)     (* the pool thread of task [i] takes one step *)
| Fault (i : nat)    (* the open or read task [i] is about to do raises *)
| Yield (i : nat)    (* [as_completed] yields future [i] *)
| Join.              (* the with block is left and line 193 is reached *)

Definition is_queued (t : task) : bool :=
  match work t with Queued => true | _ => false end.

Definition is_running (t : task) : bool :=
  match work t with Reading _ _ | AtLog _ => true | _ => false end.

Definition is_returned (t : task) : bool :=
  match work t with Returned _ => true | _ => false end.

(** A queued task is picked up when a pool thread is free and the tasks
    submitted before it have been picked up. *)
Definition can_start (n : Z) (ts : list task) (i : nat) : bool :=
  bool_decide (Z.of_nat (length (filter (λ t, is_running t = true) ts)) < n)%Z
  && forallb (λ t, negb (is_queued t)) (take i ts).

Definition set_work (i : nat) (w : worker) (st : state) : state :=
  State (st_disk st) (should_exit st)
        (alter (λ t, Task (path t) w (yielded t)) i (tasks st))
        (words st) (st_phase st) (st_out st) (st_tick st).

Definition set_disk (d : disk) (st : state) : state :=
  State d (should_exit st) (tasks st) (words st) (st_phase st) (st_out st)
        (st_tick st).

Definition set_phase (p : phase) (st : state) : state :=
  State (st_disk st) (should_exit st) (tasks st) (words st) p (st_out st)
        (st_tick st).

Definition report (m : message) (st : state) : state :=
  State (st_disk st) (should_exit st) (tasks st) (words st) (st_phase st)
        (st_out st ++ [m]) (st_tick st).

Definition tick (st : state) : state :=
  State (st_disk st) (should_exit st) (tasks st) (words st) (st_phase st)
        (st_out st) (S (st_tick st)).

Definition is_live (st : state) : bool :=
  match st_phase st with Merging | Draining => true | _ => false end.

(** Lines 139-141. *)
Definition add_line (ws : gset string) (line : string) : gset string :=
  match strip line with
  | "" => ws
  | word => {[ word ]} ∪ ws
  end.

Section Run.

(** What the run is given: its configuration, its action tag, and the clock
    read by [datetime.now().isoformat()]. *)
Context (cfg : config) (act : action) (clock : nat → string).

(** [signal_handler]. *)
Definition signal_handler (st : state) : state :=
  State (st_disk st) true (tasks st) (words st) (st_phase st) (st_out st)
        (st_tick st).

(** One step of [collect_words_from_file] for task [i].  The first step
    opens the file, counts its lines and opens it again. *)
Definition work_step (i : nat) (st : state) : option state :=
  t ← tasks st !! i;
  match work t with
  | Queued =>
      if can_start (threads cfg) (tasks st) i then
        match tree (st_disk st) !! path t with
        | Some (File text) => Some (set_work i (Reading (file_lines text) ∅) st)
        | _ => Some (report (ErrorReading (path t)) (set_work i (Returned ∅) st))
        end
      else None
  | Reading [] ws => Some (set_work i (AtLog ws) st)
  | Reading (line :: rest) ws =>
      if should_exit st then Some (set_work i (AtLog ws) st)
      else Some (set_work i (Reading rest (add_line ws line)) st)
  | AtLog ws =>
      match log_path cfg with
      | Some (String c p) =>
          if should_exit st then Some (set_work i (Returned ws) st)
          else Some (set_work i (Returned ws)
                 (set_disk (log_action (String c p) (clock (st_tick st)) act
                              (path t) (size ws) (st_disk st)) st))
      | _ => Some (set_work i (Returned ws) st)
      end
  | Returned _ => None
  end.

(** The open or the read of task [i] raises: line 144 catches it, line 145
    reports it and line 146 returns [words] as it stands. *)
Definition fault_step (i : nat) (st : state) : option state :=
  t ← tasks st !! i;
  match work t with
  | Queued =>
      if can_start (threads cfg) (tasks st) i
      then Some (report (ErrorReading (path t)) (set_work i (Returned ∅) st))
      else None
  | Reading _ ws =>
      Some (report (ErrorReading (path t)) (set_work i (Returned ws) st))
  | _ => None
  end.

(** One turn of the loop of line 186 on future [i]. *)
Definition yield_step (i : nat) (st : state) : option state :=
  t ← tasks st !! i;
  match st_phase st, work t, yielded t with
  | Merging, Returned ws, false =>
      let ts := alter (λ t, Task (path t) (work t) true) i (tasks st) in
      if should_exit st
      then Some (State (st_disk st) (should_exit st) ts (words st) Draining
                       (st_out st) (st_tick st))
      else Some (State (st_disk st) (should_exit st) ts (words st ∪ ws) Merging
                       (st_out st) (st_tick st))
  | _, _, _ => None
  end.

(** Lines 193-201, once the pool has shut down.  No worker is left to write
    the log, so the calls of [load_logged_files] of line 194 all read the same
    log. *)
Definition finish (st : state) : state :=
  if should_exit st then
    let remaining := path <$> tasks st in
    let unfinished :=
      filter (λ f, f ∉ load_logged_files (log_path cfg) (st_disk st))
             remaining in
    set_phase SysExit (set_disk (save_resume_state unfinished (st_disk st)) st)
  else
    set_phase (Finished (words st))
              (set_disk (set_resume_file None (st_disk st)) st).

Definition join_step (st : state) : option state :=
  match st_phase st with
  | Merging =>
      if forallb (λ t, is_returned t && yielded t) (tasks st)
      then Some (finish st) else None
  | Draining =>
      if forallb is_returned (tasks st) then Some (finish st) else None
  | _ => None
  end.

Definition step (e : event) (st : state) : option state :=
  if is_live st then
    tick <$> match e with
             | Signal => Some (signal_handler st)
             | Work i => work_step i st
             | Fault i => fault_step i st
             | Yield i => yield_step i st
             | Join => join_step st
             end
  else None.

(** A schedule is run event by event; an event that cannot happen in the
    state it meets is passed over. *)
Definition exec (sched : list event) (st : state) : state :=
  foldl (λ st e, default st (step e st)) st sched.

(** Lines 179-185: the pool is created and every file is submitted.
    [ThreadPoolExecutor] raises [ValueError] for a pool of no thread. *)
Definition start (all_files : list string) (out : list message) (d : disk)
    : state :=
  if bool_decide (0 < threads cfg)%Z
  then State d false ((λ f, Task f Queued false) <$> all_files) ∅ Merging out 0
  else State d false [] ∅ Raised out 0.

(** [collect_words_from_inputs], run under a schedule. *)
Definition collect_words_from_inputs (sched : list event) (d : disk) : state :=
  let out := (enumerate (files cfg) (folders cfg) d).2 in
  match select_sources cfg d with
  | None => State d false [] ∅ (Finished ∅) out 0
  | Some all_files => exec sched (start all_files out d)
  end.

End Run.

(** ** A fair scheduler *)

(** The scheduler that lets the first running task step, else starts the
    first queued one, else lets the merge loop take the first future it has
    not seen, else leaves the with block.  It sends no signal and makes no
    read fail. *)
Definition next_event (st : state) : option event :=
  if is_live st then
    match list_find (λ t, is_running t = true) (tasks st) with
    | Some (i, _) => Some (Work i)
    | None =>
        match list_find (λ t, is_queued t = true) (tasks st) with
        | Some (i, _) => Some (Work i)
        | None =>
            match st_phase st,
                  list_find (λ t, yielded t = false) (tasks st) with
            | Merging, Some (i, _) => Some (Yield i)
            | _, _ => Some Join
            end
        end
    end
  else None.

Fixpoint drive (cfg : config) (act : action) (clock : nat → string)
    (fuel : nat) (st : state) : list event :=
  match fuel with
  | 0 => []
  | S n =>
      match next_event st with
      | Some e => e :: drive cfg act clock n (default st (step cfg act clock e st))
      | None => []
      end
  end.

(** The steps a task still has to take, counting its turn in the merge
    loop. *)
Definition task_cost (tr : gmap string node) (t : task) : nat :=
  match work t with
  | Queued =>
      match tr !! path t with
      | Some (File text) => 3 + length (file_lines text)
      | _ => 1
      end
  | Reading rest _ => 2 + length rest
  | AtLog _ => 1
  | Returned _ => 0
  end + (if yielded t then 0 else 1).

Definition run_cost (st : state) : nat :=
  (if is_live st then 1 else 0) + sum_list (task_cost (tree (st_disk st)) <$> tasks st).

(** ** The master store (lines 204-248) *)

(** A compressed text stream: what [gzip.open] and [bz2.open] write in mode
    "wt" and read back in mode "rt".  Only the law that reading gives back
    the text written is used of it: the bytes of [gzip.open] carry the time
    of writing in their header, so no statement compares the bytes of two
    saves. *)
Record codec := Codec {
  deflate : string → string;
  inflate : string → option string;
  inflate_deflate : ∀ text, inflate (deflate text) = Some text
}.

Inductive compression := Plain | Gzip | Bz2.

(** [sorted(words)]: the elements of the set in code-point order. *)
Definition sorted (ws : gset string) : list string :=
  merge_sort String.le (elements ws).

(** Strictly below, in the order [sorted] uses. *)
Definition str_lt (a b : string) : Prop := String.le a b ∧ a ≠ b.

(** [set(line.strip() for line in infile if line.strip())] *)
Definition line_set (text : string) : gset string :=
  foldl add_line ∅ (file_lines text).

(** The words a worker returns for [p] when nothing disturbs it: those of
    its lines, and none when [p] cannot be opened. *)
Definition file_words (d : disk) (p : string) : gset string :=
  match tree d !! p with
  | Some (File text) => line_set text
  | _ => ∅
  end.

Inductive loaded :=
| NoMaster                    (* none of the three files exists *)
| Corrupt                     (* the compressed file cannot be read *)
| Loaded (ws : gset string).

Inductive outcome :=
| Saved          (* the master was written *)
| Interrupted    (* [sys.exit(0)] after the checkpoint *)
| Refused        (* [add_to_master] found no master *)
| Failed         (* an exception reached the top level *)
| Unfinished.    (* the schedule ended before the run did *)

Record result := Result {
  res_outcome : outcome;
  res_disk : disk;
  res_out : list message
}.

Section Master.

Context (gz bz : codec).

Definition save_master (ws : gset string) (c : compression) (d : disk) : disk :=
  let text := write_lines (sorted ws) in
  match c with
  | Gzip => Disk (tree d) (logs d) (resume_file d) (master_txt d)
                 (Some (deflate gz text)) (master_bz2 d)
  | Bz2 => Disk (tree d) (logs d) (resume_file d) (master_txt d)
                (master_gz d) (Some (deflate bz text))
  | Plain => Disk (tree d) (logs d) (resume_file d) (Some text)
                  (master_gz d) (master_bz2 d)
  end.

(** The text of the master file of one representation. *)
Definition master_text (c : compression) (d : disk) : option string :=
  match c with
  | Plain => master_txt d
  | Gzip => master_gz d ≫= inflate gz
  | Bz2 => master_bz2 d ≫= inflate bz
  end.

(** Lines 231-244: the first representation found is the one loaded. *)
Definition load_master (d : disk) : loaded :=
  match master_txt d, master_gz d, master_bz2 d with
  | Some text, _, _ => Loaded (line_set text)
  | None, Some bytes, _ =>
      match inflate gz bytes with
      | Some text => Loaded (line_set text)
      | None => Corrupt
      end
  | None, None, Some bytes =>
      match inflate bz bytes with
      | Some text => Loaded (line_set text)
      | None => Corrupt
      end
  | None, None, None => NoMaster
  end.

Context (cfg : config) (clock : nat → string).

(** What follows [collect_words_from_inputs] in both callers: the master is
    saved when the call returns, and only then. *)
Definition save_result (seed : gset string) (c : compression) (st : state)
    : result :=
  match st_phase st with
  | Finished ws =>
      Result Saved (save_master (seed ∪ ws) c (st_disk st)) (st_out st)
  | SysExit => Result Interrupted (st_disk st) (st_out st)
  | Raised => Result Failed (st_disk st) (st_out st)
  | _ => Result Unfinished (st_disk st) (st_out st)
  end.

Definition create_master (c : compression) (sched : list event) (d : disk)
    : result :=
  save_result ∅ c (collect_words_from_inputs cfg CREATE clock sched d).

Definition add_to_master (c : compression) (sched : list event) (d : disk)
    : result :=
  match load_master d with
  | NoMaster => Result Refused d [NoMasterFound]
  | Corrupt => Result Failed d []
  | Loaded existing =>
      save_result existing c (collect_words_from_inputs cfg ADD clock sched d)
  end.

End Master.

(** No representation that [load_master] would prefer to the one written
    in mode [c] exists. *)
Definition none_before (c : compression) (d : disk) : Prop :=
  match c with
  | Plain => True
  | Gzip => master_txt d = None
  | Bz2 => master_txt d = None ∧ master_gz d = None
  end.

(** A schedule without signal and without failing read. *)
Definition quiet_event (e : event) : bool :=
  match e with Signal | Fault _ => false | _ => true end.

Definition quiet (sched : list event) : Prop :=
  Forall (λ e, quiet_event e = true) sched.

(** A framed stream: a magic prefix, then the text.  It stands for the
    compressed formats in the examples. *)
Fixpoint strip_prefix (p s : string) : option string :=
  match p, s with
  | "", _ => Some s
  | String a p', String b s' => if Ascii.eqb a b then strip_prefix p' s' else None
  | String _ _, "" => None
  end.

Local Arguments Ascii.eqb : simpl never.
Local Arguments py_isspace : simpl never.

Lemma strip_prefix_app p s : strip_prefix p (p +:+ s) = Some s.
Proof.
  induction p as [|a p IH]; simpl; [by destruct s|].
  by rewrite Ascii.eqb_refl.
Qed.

(** The framed stream is a codec. *)
Definition framed (magic : string) : codec :=
  Codec (λ s, magic +:+ s) (strip_prefix magic) (strip_prefix_app magic).

(** ** Notions used in the statements *)

(** The checkpoint takes the place of the enumerated sequence. *)
Definition checkpoint_used (cfg : config) (d : disk) : bool :=
  resume cfg && match load_resume_state d with Some (_ :: _) => true | _ => false end.

(** When the run has left through [sys.exit(0)], the checkpoint holds the
    paths of the tasks that the log does not name. *)
Definition checkpointed (cfg : config) (st : state) : Prop :=
  st_phase st = SysExit →
  resume_file (st_disk st)
  = Some (filter (λ f, f ∉ load_logged_files (log_path cfg) (st_disk st))
                 (path <$> tasks st)).

(** The union of the words of the sources [ps]. *)
Definition union_of (d : disk) (ps : list string) : gset string :=
  ⋃ (file_words d <$> ps).

(** What the merge loop has taken so far, when nothing disturbs the run. *)
Definition merged (d : disk) (ts : list task) : gset string :=
  ⋃ ((λ t, if yielded t then file_words d (path t) else ∅) <$> ts).

Definition task_quiet (d : disk) (t : task) : Prop :=
  match work t with
  | Queued => yielded t = false
  | Reading rest ws =>
      foldl add_line ws rest = file_words d (path t) ∧ yielded t = false
  | AtLog ws => ws = file_words d (path t) ∧ yielded t = false
  | Returned ws => ws = file_words d (path t)
  end.

Definition quiet_inv (d : disk) (st : state) : Prop :=
  should_exit st = false
  ∧ tree (st_disk st) = tree d
  ∧ Forall (task_quiet d) (tasks st)
  ∧ match st_phase st with
    | Merging => words st = merged d (tasks st)
    | Finished ws => ws = union_of d (path <$> tasks st)
    | Raised => True
    | _ => False
    end.

(** A line of a file: a body without LF, then LF unless the file ends. *)
Definition line_body (line : string) : Prop :=
  ∃ b, mem_char LF b = false ∧ (line = b ∨ line = b +:+ String LF "").

(** The open or a read of task [i] fails at event [e]: a failing system
    call, or the opening of a path that is no regular file. *)
Definition read_fails (e : event) (i : nat) (st : state) (t : task) : Prop :=
  e = Fault i
  ∨ (e = Work i ∧ work t = Queued
     ∧ ∀ text, tree (st_disk st) !! path t ≠ Some (File text)).

(** The words a worker has collected so far. *)
Definition kept (t : task) : gset string :=
  match work t with
  | Reading _ ws | AtLog ws | Returned ws => ws
  | Queued => ∅
  end.

(** The input sources of a run: the explicit paths that are regular files,
    then what the folders that exist expand to. *)
Definition input_sources (cfg : config) (d : disk) : list string :=
  filter (λ f, isfile d f = true) (files cfg)
  ++ concat (expansion d <$> folders cfg).

(** ** The command line (lines 251-283) *)

(** What [parse_args] returns.  An option with [nargs="*"] is [None] when
    it is not given and a list, possibly empty, when it is. *)
Record arguments := Arguments {
  arg_create : option (list string);
  arg_add : option (list string);
  arg_create_folder : option (list string);
  arg_add_folder : option (list string);
  arg_threads : Z;
  arg_log : bool;
  arg_log_file : string;
  arg_skip_logged : bool;
  arg_resume : bool;
  arg_compress : compression;
  arg_version : bool;
  arg_about : bool
}.

(** Python truth value of such an option: [None] and [[]] are false. *)
Definition given (l : option (list string)) : bool :=
  match l with Some (_ :: _) => true | _ => false end.

Inductive main_result :=
| ShowedVersion            (* line 269-270 *)
| ShowedBanner             (* line 273-274 *)
| NoAction                 (* line 283 *)
| Ran (r : result).

(** The configuration [create_master] or [add_to_master] is called with.
    [collect_words_from_inputs] treats a missing list as an empty one
    ([if files:], [if folders:]). *)
Definition config_of (a : arguments) (fs fo : option (list string)) : config :=
  Config (default [] fs) (default [] fo) (arg_threads a)
         (if arg_log a then Some (arg_log_file a) else None)
         (arg_skip_logged a) (arg_resume a).

Definition main (gz bz : codec) (clock : nat → string) (a : arguments)
    (sched : list event) (d : disk) : main_result :=
  if arg_version a then ShowedVersion
  else if arg_about a then ShowedBanner
  else if given (arg_create a) || given (arg_create_folder a) then
    Ran (create_master gz bz (config_of a (arg_create a) (arg_create_folder a))
           clock (arg_compress a) sched d)
  else if given (arg_add a) || given (arg_add_folder a) then
    Ran (add_to_master gz bz (config_of a (arg_add a) (arg_add_folder a))
           clock (arg_compress a) sched d)
  else NoAction.

(** ** Further notions used in the statements *)

(** A time stamp as [isoformat] gives it: it holds neither the delimiter nor
    a line end, and does not start with white space. *)
Definition clean_stamp (now : string) : bool :=
  negb (mem_char BAR now) && negb (mem_char LF now) && negb (mem_char CR now)
  && match first_char now with Some c => negb (py_isspace c) | None => false end.

(** A path the ledger gives back as it is: it holds neither the delimiter
    nor a line end, and has no white space at either end. *)
Definition clean_path (p : string) : bool :=
  negb (mem_char BAR p) && negb (mem_char LF p) && negb (mem_char CR p)
  && bool_decide (strip p = p).

(** A text whose last line is terminated: empty, or ending in LF. *)
Definition complete_text (text : string) : Prop :=
  text = "" ∨ last_char text = Some LF.

(** The entries for sources read in full: [es] gives, for each, the reading
    of the clock and the path. *)
Definition ledger_tail (act : action) (clock : nat → string) (d : disk)
    (es : list (nat * string)) : string :=
  foldr (λ e acc, log_line (clock e.1) act e.2 (size (file_words d e.2)) +:+ acc)
        "" es.

(** The three master files are the same on both disks. *)
Definition same_masters (d d' : disk) : Prop :=
  master_txt d' = master_txt d ∧ master_gz d' = master_gz d
  ∧ master_bz2 d' = master_bz2 d.

(** What holds of a task under every schedule: the words it holds are words
    of its source, and all of them once the loop has ended without
    cancellation. *)
Definition task_sound (d : disk) (flag : bool) (t : task) : Prop :=
  match work t with
  | Queued => True
  | Reading rest ws =>
      isfile d (path t) = true
      ∧ foldl add_line ws rest = file_words d (path t)
  | AtLog ws =>
      isfile d (path t) = true
      ∧ ws ⊆ file_words d (path t)
      ∧ (flag = false → ws = file_words d (path t))
  | Returned ws => ws ⊆ file_words d (path t)
  end.

Definition sound_inv (d : disk) (st : state) : Prop :=
  tree (st_disk st) = tree d
  ∧ same_masters d (st_disk st)
  ∧ Forall (task_sound d (should_exit st)) (tasks st)
  ∧ words st ⊆ union_of d (path <$> tasks st)
  ∧ ∀ ws, st_phase st = Finished ws → ws ⊆ union_of d (path <$> tasks st).

(** What holds of the log of the run under every schedule. *)
Definition ledger_inv (cfg : config) (act : action) (clock : nat → string)
    (d : disk) (st : state) : Prop :=
  match log_path cfg with
  | Some (String c lp) =>
      ∃ es,
        default "" (logs (st_disk st) !! String c lp)
        = default "" (logs d !! String c lp) +:+ ledger_tail act clock d es
        ∧ Forall (λ e, e.2 ∈ path <$> tasks st ∧ isfile d e.2 = true) es
        ∧ ∀ q, q ≠ String c lp → logs (st_disk st) !! q = logs d !! q
  | _ => logs (st_disk st) = logs d
  end.

(** The digits of a count. *)
Definition digits : string := "0123456789".

(** The line of an entry, without its line end. *)
Definition entry_body (now : string) (a : action) (p : string) (n : nat)
    : string :=
  now +:+ " | " +:+ ljust 6 (action_tag a) +:+ " | " +:+ p +:+ " | "
  +:+ pretty n +:+ " words".

(** The same arguments, without [--skip-logged]. *)
Definition without_skip (a : arguments) : arguments :=
  Arguments (arg_create a) (arg_add a) (arg_create_folder a) (arg_add_folder a)
            (arg_threads a) (arg_log a) (arg_log_file a) false (arg_resume a)
            (arg_compress a) (arg_version a) (arg_about a).

(** ** Concrete inputs *)

Definition nl : string := String LF "".
Definition ex_gz : codec := framed "GZ".
Definition ex_bz : codec := framed "BZ".
Definition ex_clock (n : nat) : string := "T" +:+ pretty n.
Definition no_disk : disk := Disk ∅ ∅ None None None None.

(** The scenario of the specification: [a.txt] and [b.txt], two threads, no
    compression. *)
Definition ab_tree : gmap string node :=
  {[ "a.txt" := File ("foo" +:+ nl +:+ " bar " +:+ nl +:+ nl +:+ "foo" +:+ nl);
     "b.txt" := File ("baz" +:+ nl +:+ "foo" +:+ nl) ]}.
Definition ab_disk : disk := Disk ab_tree ∅ None None None None.
Definition ab_cfg : config := Config ["a.txt"; "b.txt"] [] 2 None false false.

(** Both workers run side by side, [b.txt] is merged first. *)
Definition ab_sched : list event :=
  [Work 0; Work 1; Work 0; Work 1; Work 1; Work 0; Work 1; Work 0; Work 1;
   Work 0; Yield 1; Work 0; Work 0; Yield 0; Join].

(** Add mode: master {a, b}, new source {b, c}. *)
Definition add_disk : disk :=
  Disk {[ "new.txt" := File ("b" +:+ nl +:+ "c" +:+ nl) ]} ∅ None
       (Some ("a" +:+ nl +:+ "b" +:+ nl)) None None.
Definition add_cfg : config := Config ["new.txt"] [] 4 None false false.

(** Three sources, a log, and a signal once A is logged. *)
Definition abc_tree : gmap string node :=
  {[ "A.txt" := File ("foo" +:+ nl +:+ "bar" +:+ nl);
     "B.txt" := File ("baz" +:+ nl);
     "C.txt" := File "qux" ]}.
Definition abc_disk : disk := Disk abc_tree ∅ None None None None.
Definition abc_cfg : config :=
  Config ["A.txt"; "B.txt"; "C.txt"] [] 2 (Some "listman.log") false false.
Definition abc_sched : list event :=
  [Work 0; Work 0; Work 0; Work 0; Work 0; Work 1; Signal; Work 1; Work 1;
   Work 2; Work 2; Work 2; Yield 0; Join].

(** The same run without a log path: A, though finished, is pending. *)
Definition nolog_cfg : config :=
  Config ["A.txt"; "B.txt"; "C.txt"] [] 2 None false false.

(** An old plain master, and a save in gzip mode. *)
Definition old_disk : disk :=
  Disk ∅ ∅ None (Some ("old" +:+ nl)) None None.

(** A string with a carriage return inside: no LF, no white space at its
    ends. *)
Definition cr_word : string := "a" +:+ String CR "b".

(** A checkpoint on the disk, and a run asked to resume. *)
Definition one_file : gmap string node := {[ "a.txt" := File ("foo" +:+ nl) ]}.
Definition resume_cfg (fs : list string) : config :=
  Config fs [] 4 None false true.
Definition resume_disk (pending : list string) : disk :=
  Disk one_file ∅ (Some pending) None None None.

(** A log that names A, and a checkpoint that holds A as well: what a run
    without log path leaves when it is interrupted after an earlier logged
    run. *)
Definition skip_tree : gmap string node :=
  {[ "A.txt" := File ("foo" +:+ nl); "B.txt" := File ("bar" +:+ nl) ]}.
Definition skip_log : gmap string string :=
  {[ "listman.log" := log_line (ex_clock 3) CREATE "A.txt" 1 ]}.
Definition skip_disk (r : option (list string)) : disk :=
  Disk skip_tree skip_log r None None None.
Definition skip_cfg (res : bool) : config :=
  Config ["A.txt"; "B.txt"] [] 4 (Some "listman.log") true res.

(** A path named twice, and a path named and found in a folder. *)
Definition dup_tree : gmap string node :=
  {[ "a.txt" := File ("foo" +:+ nl);
     "lists" := Folder ["lists/b.txt"];
     "lists/b.txt" := File ("bar" +:+ nl) ]}.
Definition dup_disk : disk := Disk dup_tree ∅ None None None None.

(** An empty source, with logging. *)
Definition empty_disk : disk :=
  Disk {[ "empty.txt" := File "" ]} ∅ None None None None.
Definition empty_cfg : config :=
  Config ["empty.txt"] [] 1 (Some "listman.log") false false.
Definition empty_sched : list event := [Work 0; Work 0; Work 0; Yield 0; Join].
Definition empty_run (sched : list event) : state :=
  collect_words_from_inputs empty_cfg CREATE ex_clock sched empty_disk.

(** A read that fails after the first line of two. *)
Definition two_lines : disk :=
  Disk {[ "a.txt" := File ("foo" +:+ nl +:+ "bar" +:+ nl) ]} ∅ None None None None.
Definition fail_cfg : config := Config ["a.txt"] [] 1 None false false.
Definition fail_sched : list event := [Work 0; Work 0; Fault 0; Yield 0; Join].

(** One step into the run over A, B, C. *)
Definition abc_prefix : list event := [Work 0; Work 0].

(** A, B, C beside an old plain master. *)
Definition abc_old_disk : disk :=
  Disk abc_tree ∅ None (Some ("old" +:+ nl)) None None.

(** A stale checkpoint beside the two sources of the scenario. *)
Definition stale_disk : disk := Disk ab_tree ∅ (Some ["old.txt"]) None None None.

(** A create run whose only input is missing, over an old master. *)
Definition missing_cfg : config := Config ["missing.txt"] [] 4 None false true.

(** A pool of no thread. *)
Definition zero_cfg : config := Config ["a.txt"; "b.txt"] [] 0 None false false.

(** The schedule of a single worker over a file of two lines. *)
Definition add_sched : list event :=
  [Work 0; Work 0; Work 0; Work 0; Work 0; Yield 0; Join].

(** The run that resumes the interrupted run over A, B, C. *)
Definition abc_resume_cfg : config :=
  Config ["A.txt"; "B.txt"; "C.txt"] [] 2 (Some "listman.log") false true.
Definition bc_sched : list event :=
  [Work 0; Work 0; Work 0; Work 0; Work 1; Work 1; Work 1; Work 1;
   Yield 0; Yield 1; Join].

(** [--log-file] given with an empty name. *)
Definition empty_log_cfg : config :=
  Config ["A.txt"; "B.txt"] [] 4 (Some "") true false.

(** [--create A.txt B.txt --skip-logged --log-file listman.log], no [--log]. *)
Definition skip_args : arguments :=
  Arguments (Some ["A.txt"; "B.txt"]) None None None 4 false "listman.log"
            true false Plain false false.

(** A run over [a.txt] asked to resume, with the checkpoint of an earlier
    run over [b.txt] still on the disk. *)
Definition stale_tree : gmap string node :=
  {[ "a.txt" := File ("foo" +:+ nl); "b.txt" := File ("bar" +:+ nl) ]}.
Definition stale_b_disk : disk :=
  Disk stale_tree ∅ (Some ["b.txt"]) None None None.
Definition stale_cfg : config := Config ["a.txt"] [] 1 None false true.

(** The schedule of a single worker over a file of one line. *)
Definition one_sched : list event :=
  [Work 0; Work 0; Work 0; Work 0; Yield 0; Join].

(** Add mode over a gzip master {a, b}. *)
Definition gz_disk : disk :=
  Disk {[ "new.txt" := File ("b" +:+ nl +:+ "c" +:+ nl) ]} ∅ None None
       (Some (deflate ex_gz ("a" +:+ nl +:+ "b" +:+ nl))) None.

(** * Properties *)

(** ** Text *)

Lemma universal_newlines_id s :
  mem_char CR s = false → universal_newlines s = s.
Proof.
  induction s as [|c s IH]; simpl; [done|].
  rewrite Ascii.eqb_sym. intros [Hc Hs]%orb_false_elim.
  rewrite Hc. by rewrite IH.
Qed.

Lemma mem_char_app c s t : mem_char c (s +:+ t) = mem_char c s || mem_char c t.
Proof.
  induction s as [|a s IH]; simpl; [done|].
  by rewrite IH, orb_assoc.
Qed.

Lemma split_lines_line w rest :
  mem_char LF w = false →
  split_lines (w +:+ String LF rest) = (w +:+ String LF "") :: split_lines rest.
Proof.
  induction w as [|c w IH]; simpl; [done|].
  rewrite Ascii.eqb_sym. intros [Hc Hw]%orb_false_elim.
  rewrite Hc. by rewrite (IH Hw).
Qed.

Lemma mem_char_write_lines_CR ws :
  Forall (λ w, one_line w = true) ws → mem_char CR (write_lines ws) = false.
Proof.
  induction 1 as [|w ws Hw _ IH]; simpl; [done|].
  rewrite mem_char_app. simpl. rewrite IH, orb_false_r.
  unfold one_line in Hw. apply andb_true_iff in Hw as [_ Hw].
  by apply negb_true_iff in Hw.
Qed.

Lemma split_lines_write_lines ws :
  Forall (λ w, one_line w = true) ws →
  split_lines (write_lines ws) = (λ w, w +:+ String LF "") <$> ws.
Proof.
  induction 1 as [|w ws Hw _ IH]; simpl; [done|].
  rewrite split_lines_line, IH; [done|].
  unfold one_line in Hw. apply andb_true_iff in Hw as [Hw _].
  by apply negb_true_iff in Hw.
Qed.

(** Reading back what was written, line by line. *)
Lemma file_lines_write_lines ws :
  Forall (λ w, one_line w = true) ws →
  file_lines (write_lines ws) = (λ w, w +:+ String LF "") <$> ws.
Proof.
  intros Hws. unfold file_lines.
  rewrite universal_newlines_id by by apply mem_char_write_lines_CR.
  by apply split_lines_write_lines.
Qed.

Lemma rstrip_app_space s c :
  py_isspace c = true → rstrip (s +:+ String c "") = rstrip s.
Proof.
  intros Hc. induction s as [|a s IH]; simpl; [by rewrite Hc|].
  by rewrite IH.
Qed.

Lemma rstrip_id s c :
  last_char s = Some c → py_isspace c = false → rstrip s = s.
Proof.
  induction s as [|a s IH]; [done|].
  simpl. destruct s as [|b s]; simpl in *.
  - intros [= ->] ->. done.
  - intros Hl Hc. specialize (IH Hl Hc). by rewrite IH.
Qed.

Lemma lstrip_id s c :
  first_char s = Some c → py_isspace c = false → lstrip s = s.
Proof. destruct s; simpl; [done|]. by intros [= ->] ->. Qed.

Lemma is_word_one_line w : is_word w = true → one_line w = true.
Proof.
  unfold is_word, one_line. rewrite !andb_true_iff. tauto.
Qed.

Lemma strip_line_word w :
  is_word w = true → strip (w +:+ String LF "") = w.
Proof.
  unfold is_word. rewrite !andb_true_iff. intros [[_ Hf] Hl].
  destruct (first_char w) as [a|] eqn:Ha; [|done].
  destruct (last_char w) as [b|] eqn:Hb; [|done].
  unfold strip. rewrite rstrip_app_space by done.
  rewrite (rstrip_id w b) by (done || by apply negb_true_iff).
  apply (lstrip_id w a); [done|by apply negb_true_iff].
Qed.

Lemma is_word_nonempty w : is_word w = true → w ≠ "".
Proof. by destruct w. Qed.

Lemma add_line_word ws w :
  is_word w = true → add_line ws (w +:+ String LF "") = {[ w ]} ∪ ws.
Proof.
  intros Hw. unfold add_line. rewrite strip_line_word by done.
  destruct w; [done|done].
Qed.

Lemma foldl_add_line_words ws acc :
  Forall (λ w, is_word w = true) ws →
  foldl add_line acc ((λ w, w +:+ String LF "") <$> ws) = list_to_set ws ∪ acc.
Proof.
  intros Hws. revert acc.
  induction Hws as [|w ws Hw _ IH]; intros acc; simpl; [set_solver|].
  rewrite add_line_word by done. rewrite IH. set_solver.
Qed.

(** [line_set] reads back the words that [write_lines] wrote. *)
Lemma line_set_write_lines ws :
  Forall (λ w, is_word w = true) ws →
  line_set (write_lines ws) = list_to_set ws.
Proof.
  intros Hws. unfold line_set.
  rewrite file_lines_write_lines
    by (eapply Forall_impl; [done|apply is_word_one_line]).
  rewrite foldl_add_line_words by done. set_solver.
Qed.

(** ** The master store *)

Lemma sorted_perm ws : sorted ws ≡ₚ elements ws.
Proof. apply merge_sort_Permutation. Qed.

Lemma sorted_NoDup ws : NoDup (sorted ws).
Proof. rewrite sorted_perm. apply NoDup_elements. Qed.

Lemma elem_of_sorted ws w : w ∈ sorted ws ↔ w ∈ ws.
Proof. rewrite sorted_perm. apply elem_of_elements. Qed.

Lemma list_to_set_sorted ws : list_to_set (sorted ws) = ws.
Proof.
  apply set_eq. intros w. rewrite elem_of_list_to_set. apply elem_of_sorted.
Qed.

Lemma strict_of_NoDup (l : list string) :
  StronglySorted String.le l → NoDup l → StronglySorted str_lt l.
Proof.
  induction 1 as [|x l Hl IH Hx]; intros Hnd; [constructor|].
  apply NoDup_cons in Hnd as [Hxl Hnd].
  constructor; [by apply IH|].
  apply Forall_forall. intros y Hy. split.
  - by apply (proj1 (Forall_forall _ _) Hx).
  - intros ->. done.
Qed.

(** [sorted] is strictly ascending. *)
Lemma sorted_strict ws : StronglySorted str_lt (sorted ws).
Proof.
  apply strict_of_NoDup; [|apply sorted_NoDup].
  apply (StronglySorted_merge_sort String.le).
Qed.

Lemma master_text_save_master gz bz ws c d :
  master_text gz bz c (save_master gz bz ws c d) = Some (write_lines (sorted ws)).
Proof. destruct c; simpl; [done|apply inflate_deflate..]. Qed.

(** C7. In every save mode the saved master file holds the words of
    [sorted(words)], one per line; that sequence is strictly ascending in the
    code-point order and has no duplicate.  When no word holds a line end
    (words are trimmed lines), these are the lines the file reads back as. *)
Theorem sort_invariant gz bz (ws : gset string) (c : compression) (d : disk) :
  ∃ text,
    master_text gz bz c (save_master gz bz ws c d) = Some text
    ∧ text = write_lines (sorted ws)
    ∧ StronglySorted str_lt (sorted ws)
    ∧ NoDup (sorted ws)
    ∧ ((∀ w, w ∈ ws → one_line w = true) →
       file_lines text = (λ w, w +:+ String LF "") <$> sorted ws).
Proof.
  exists (write_lines (sorted ws)).
  split; [apply master_text_save_master|].
  split; [done|]. split; [apply sorted_strict|]. split; [apply sorted_NoDup|].
  intros Hws. apply file_lines_write_lines, Forall_forall.
  intros w Hw. by apply Hws, elem_of_sorted.
Qed.

Lemma load_master_save_master gz bz ws c d :
  none_before c d →
  load_master gz bz (save_master gz bz ws c d)
  = Loaded (line_set (write_lines (sorted ws))).
Proof.
  destruct c; simpl; unfold load_master; simpl.
  - done.
  - intros ->. by rewrite inflate_deflate.
  - intros [-> ->]. by rewrite inflate_deflate.
Qed.

(** C3, amended. Saving a set of words (non-empty strings without LF or CR
    and without white space at either end) in any mode and loading the master
    gives the set back, provided no representation that the loader prefers
    to the one written exists. *)
Theorem round_trip gz bz (ws : gset string) (c : compression) (d : disk) :
  (∀ w, w ∈ ws → is_word w = true) →
  none_before c d →
  load_master gz bz (save_master gz bz ws c d) = Loaded ws.
Proof.
  intros Hws Hd. rewrite load_master_save_master by done.
  rewrite line_set_write_lines, list_to_set_sorted; [done|].
  apply Forall_forall. intros w Hw. by apply Hws, elem_of_sorted.
Qed.

(** ** Enumeration and selection of the sources *)

Lemma scan_files_fst d fs acc :
  (foldl (scan_file d) acc fs).1 = acc.1 ++ filter (λ f, isfile d f = true) fs.
Proof.
  revert acc. induction fs as [|f fs IH]; intros acc; simpl.
  - by rewrite app_nil_r.
  - rewrite IH. unfold scan_file. rewrite filter_cons.
    destruct (decide (isfile d f = true)) as [Hf|Hf].
    + rewrite Hf. simpl. by rewrite <-app_assoc.
    + apply not_true_is_false in Hf. by rewrite Hf.
Qed.

Lemma scan_folders_fst d fo acc :
  (foldl (scan_folder d) acc fo).1 = acc.1 ++ concat (expansion d <$> fo).
Proof.
  revert acc. induction fo as [|f fo IH]; intros acc; simpl.
  - by rewrite app_nil_r.
  - rewrite IH. unfold scan_folder, expansion.
    destruct (isdir d f); simpl; [by rewrite <-app_assoc|done].
Qed.

(** The enumerated sequence: the explicit files that exist, then the
    expansion of each folder that exists, both in the order given. *)
Lemma enumerate_fst fs fo d :
  (enumerate fs fo d).1
  = filter (λ f, isfile d f = true) fs ++ concat (expansion d <$> fo).
Proof. unfold enumerate. by rewrite scan_folders_fst, scan_files_fst. Qed.

Lemma occurrences_app p l1 l2 :
  occurrences p (l1 ++ l2) = occurrences p l1 + occurrences p l2.
Proof. unfold occurrences. by rewrite filter_app, length_app. Qed.

Lemma occurrences_concat p (ls : list (list string)) :
  occurrences p (concat ls) = sum_list (occurrences p <$> ls).
Proof.
  induction ls as [|l ls IH]; simpl; [done|].
  by rewrite occurrences_app, IH.
Qed.

Lemma occurrences_filter_isfile d p fs :
  occurrences p (filter (λ f, isfile d f = true) fs)
  = if isfile d p then occurrences p fs else 0.
Proof.
  unfold occurrences. induction fs as [|f fs IH]; simpl.
  - by destruct (isfile d p).
  - rewrite (filter_cons (λ f, isfile d f = true)).
    destruct (decide (isfile d f = true)) as [Hf|Hf].
    + rewrite !(filter_cons (λ q, q = p)).
      destruct (decide (f = p)) as [->|Hne].
      * rewrite Hf in *. simpl. by rewrite IH.
      * rewrite IH. by destruct (isfile d p).
    + rewrite IH. destruct (isfile d p) eqn:Hp; [|done].
      rewrite (filter_cons (λ q, q = p)).
      rewrite decide_False; [done|]. intros ->. congruence.
Qed.

(** C9, amended. The enumeration removes no duplicate: the sequence is the
    existing explicit files followed by the expansions of the existing
    folders, and a path occurs in it once for each time it is named as an
    existing explicit file and once for each time an expansion yields it. *)
Theorem enumerate_occurrences (fs fo : list string) (d : disk) (p : string) :
  (enumerate fs fo d).1
  = filter (λ f, isfile d f = true) fs ++ concat (expansion d <$> fo)
  ∧ occurrences p (enumerate fs fo d).1
    = (if isfile d p then occurrences p fs else 0)
      + sum_list ((λ folder, occurrences p (expansion d folder)) <$> fo).
Proof.
  split; [apply enumerate_fst|].
  rewrite enumerate_fst, occurrences_app, occurrences_filter_isfile.
  rewrite occurrences_concat. by rewrite <-list_fmap_compose.
Qed.

Lemma select_sources_Some cfg d all_files :
  select_sources cfg d = Some all_files →
  (enumerate (files cfg) (folders cfg) d).1 ≠ [].
Proof. unfold select_sources. by destruct (enumerate _ _ _).1. Qed.

(** C4, amended. When resume is requested, the checkpoint exists with a
    non-empty pending list and the fresh enumeration is not empty, the
    sequence dispatched is the pending list of the checkpoint, and these are
    the tasks the pool is given. *)
Theorem resume_replaces (cfg : config) (act : action) (clock : nat → string)
    (d : disk) (pending : list string) :
  resume cfg = true →
  load_resume_state d = Some pending →
  pending ≠ [] →
  (enumerate (files cfg) (folders cfg) d).1 ≠ [] →
  dispatched cfg d = pending
  ∧ ((0 < threads cfg)%Z →
     path <$> tasks (collect_words_from_inputs cfg act clock [] d) = pending).
Proof.
  intros Hr Hl Hp He.
  assert (select_sources cfg d = Some pending) as Hsel.
  { unfold select_sources. destruct (enumerate _ _ _).1 as [|f fs]; [done|].
    rewrite Hr, Hl. by destruct pending. }
  split; [unfold dispatched; by rewrite Hsel|].
  intros Ht. unfold collect_words_from_inputs. rewrite Hsel. simpl.
  unfold start. rewrite bool_decide_true by done. simpl.
  rewrite <-list_fmap_compose. apply list_fmap_id.
Qed.

Lemma load_logged_files_falsy lp d :
  truthy lp = false → load_logged_files lp d = ∅.
Proof. by destruct lp as [[|]|]. Qed.

(** C6, amended. With skip-already-logged requested and the sequence not
    replaced by a checkpoint, no path that [load_logged_files] finds in the
    log of the run is dispatched. *)
Theorem skip_logged_excludes (cfg : config) (d : disk) (A : string) :
  skip_logged cfg = true →
  checkpoint_used cfg d = false →
  A ∈ load_logged_files (log_path cfg) d →
  A ∉ dispatched cfg d.
Proof.
  intros Hs Hc HA. unfold dispatched, select_sources.
  destruct (enumerate _ _ _).1 as [|f fs] eqn:He; [set_solver|].
  rewrite Hs. simpl.
  destruct (truthy (log_path cfg)) eqn:Ht; simpl.
  - assert (A ∉ filter (λ f0, f0 ∉ load_logged_files (log_path cfg) d) (f :: fs))
      as Hn by (rewrite list_elem_of_filter; tauto).
    unfold checkpoint_used in Hc.
    destruct (resume cfg); [|done]. simpl in Hc.
    by destruct (load_resume_state d) as [[|]|].
  - rewrite load_logged_files_falsy in HA by done. set_solver.
Qed.

(** ** Steps of the pool *)

Section Steps.

Context (cfg : config) (act : action) (clock : nat → string).

Local Abbreviation step1 := (step cfg act clock).
Local Abbreviation run := (exec cfg act clock).

Lemma fmap_alter_same {A B} (f : A → B) (g : A → A) i (l : list A) :
  (∀ x, f (g x) = f x) → f <$> alter g i l = f <$> l.
Proof.
  intros Hg. rewrite (list_fmap_alter f g id) by by apply Forall_true.
  by apply list_alter_id.
Qed.

Lemma alter_work_paths i w (ts : list task) :
  path <$> alter (λ t, Task (path t) w (yielded t)) i ts = path <$> ts.
Proof. by apply fmap_alter_same. Qed.

Lemma alter_yielded_paths i (ts : list task) :
  path <$> alter (λ t, Task (path t) (work t) true) i ts = path <$> ts.
Proof. by apply fmap_alter_same. Qed.

Ltac step_cases H :=
  unfold step, work_step, fault_step, yield_step, join_step, finish in H;
  repeat (simplify_option_eq || case_match).

(** A step keeps the paths of the tasks and the input tree. *)
Lemma step_paths e st st' :
  step1 e st = Some st' → path <$> tasks st' = path <$> tasks st.
Proof.
  intros H. step_cases H; simpl;
    rewrite ?alter_work_paths, ?alter_yielded_paths; done.
Qed.

Lemma step_tree e st st' :
  step1 e st = Some st' → tree (st_disk st') = tree (st_disk st).
Proof. intros H. step_cases H; done. Qed.

Lemma step_live e st st' : step1 e st = Some st' → is_live st = true.
Proof. unfold step. by destruct (is_live st). Qed.

Lemma exec_app s1 s2 st : run (s1 ++ s2) st = run s2 (run s1 st).
Proof. apply foldl_app. Qed.

Lemma exec_final sched st : is_live st = false → run sched st = st.
Proof.
  intros H. induction sched as [|e sched IH]; simpl; [done|].
  assert (step1 e st = None) as -> by (unfold step; by rewrite H).
  apply IH.
Qed.

(** An invariant of the steps is an invariant of the run. *)
Lemma exec_invariant (P : state → Prop) sched st :
  (∀ e st st', P st → step1 e st = Some st' → P st') →
  P st → P (run sched st).
Proof.
  intros Hstep. revert st.
  induction sched as [|e sched IH]; intros st HP; simpl; [done|].
  apply IH. destruct (step1 e st) as [st'|] eqn:He; simpl; eauto.
Qed.

Lemma exec_paths sched st : path <$> tasks (run sched st) = path <$> tasks st.
Proof.
  apply (exec_invariant (λ s, path <$> tasks s = path <$> tasks st)); [|done].
  intros e s s' Hs He. by rewrite (step_paths e s s').
Qed.

Lemma load_logged_files_resume lp r d :
  load_logged_files lp (set_resume_file r d) = load_logged_files lp d.
Proof. done. Qed.

Lemma work_step_phase i st st' :
  work_step cfg act clock i st = Some st' → st_phase st' = st_phase st.
Proof. intros H. unfold work_step in H. repeat (simplify_option_eq || case_match); done. Qed.

Lemma fault_step_phase i st st' :
  fault_step cfg i st = Some st' → st_phase st' = st_phase st.
Proof. intros H. unfold fault_step in H. repeat (simplify_option_eq || case_match); done. Qed.

Lemma yield_step_live i st st' :
  yield_step i st = Some st' → is_live st' = true.
Proof. intros H. unfold yield_step in H. repeat (simplify_option_eq || case_match); done. Qed.

Lemma join_step_finish st st' :
  join_step cfg st = Some st' → st' = finish cfg st.
Proof. intros H. unfold join_step in H. repeat (simplify_option_eq || case_match); done. Qed.

(** Only line 193 ends the run. *)
Lemma step_ends e st st' :
  step1 e st = Some st' → is_live st' = false →
  e = Join ∧ st' = tick (finish cfg st).
Proof.
  intros H Hl. pose proof (step_live _ _ _ H) as Hlive.
  unfold step in H. rewrite Hlive in H.
  apply fmap_Some in H as (s1 & H & ->).
  assert (is_live s1 = false) as Hl1 by done. clear Hl.
  destruct e; simpl in H.
  - injection H as <-. unfold is_live, signal_handler in *. simpl in *.
    congruence.
  - apply work_step_phase in H. unfold is_live in *.
    rewrite H in Hl1. congruence.
  - apply fault_step_phase in H. unfold is_live in *.
    rewrite H in Hl1. congruence.
  - apply yield_step_live in H. congruence.
  - apply join_step_finish in H. by subst.
Qed.

Lemma step_checkpointed e st st' :
  checkpointed cfg st → step1 e st = Some st' → checkpointed cfg st'.
Proof.
  intros _ H Hph.
  destruct (step_ends e st st' H) as [-> ->].
  { unfold is_live. by rewrite Hph. }
  unfold finish in *. destruct (should_exit st); simpl in *; done.
Qed.

Lemma start_paths all_files out d :
  (0 < threads cfg)%Z → path <$> tasks (start cfg all_files out d) = all_files.
Proof.
  intros Ht. unfold start. rewrite bool_decide_true by done. simpl.
  rewrite <-list_fmap_compose. apply list_fmap_id.
Qed.

Lemma start_phase all_files out d :
  st_phase (start cfg all_files out d)
  = if bool_decide (0 < threads cfg)%Z then Merging else Raised.
Proof. unfold start. by case_bool_decide. Qed.

(** The checkpoint of an interrupted run: the dispatched paths that
    [load_logged_files] does not find in the log as it stands then. *)
Lemma interrupted_checkpoint sched d st :
  st = collect_words_from_inputs cfg act clock sched d →
  st_phase st = SysExit →
  resume_file (st_disk st)
  = Some (filter (λ f, f ∉ load_logged_files (log_path cfg) (st_disk st))
                 (dispatched cfg d)).
Proof.
  intros -> Hph. unfold collect_words_from_inputs, dispatched in *.
  destruct (select_sources cfg d) as [all_files|]; simpl in *; [|done].
  destruct (decide (0 < threads cfg)%Z) as [Ht|Ht].
  - rewrite <-(start_paths all_files (enumerate (files cfg) (folders cfg) d).2 d)
      at 2 by done.
    rewrite <-(exec_paths sched).
    revert Hph. apply (exec_invariant (checkpointed cfg)).
    + intros e s s'. apply step_checkpointed.
    + intros Hs. rewrite start_phase in Hs. by case_bool_decide.
  - rewrite exec_final in Hph.
    + rewrite start_phase in Hph. by case_bool_decide.
    + unfold is_live. rewrite start_phase. by rewrite bool_decide_false.
Qed.

End Steps.

(** ** Interruption *)

(** C2. When the run leaves through the interruption exit, the checkpoint
    holds exactly the dispatched paths that [load_logged_files] does not find
    in the log at that moment; with sources A, B, C, of which the log names A
    and neither B nor C, the checkpoint is B, C. *)
Theorem resume_exactness (cfg : config) (act : action) (clock : nat → string)
    (sched : list event) (d : disk) (st : state) :
  st = collect_words_from_inputs cfg act clock sched d →
  st_phase st = SysExit →
  resume_file (st_disk st)
  = Some (filter (λ f, f ∉ load_logged_files (log_path cfg) (st_disk st))
                 (dispatched cfg d))
  ∧ ∀ A B C,
      dispatched cfg d = [A; B; C] →
      A ∈ load_logged_files (log_path cfg) (st_disk st) →
      B ∉ load_logged_files (log_path cfg) (st_disk st) →
      C ∉ load_logged_files (log_path cfg) (st_disk st) →
      resume_file (st_disk st) = Some [B; C].
Proof.
  intros Hst Hph.
  pose proof (interrupted_checkpoint cfg act clock sched d st Hst Hph) as Hc.
  split; [done|].
  intros A B C Hd HA HB HC. rewrite Hc, Hd.
  rewrite filter_cons, decide_False by (intros H; by apply H).
  rewrite filter_cons, decide_True by done.
  by rewrite filter_cons, decide_True by done.
Qed.

(** C10. Without a log path, the checkpoint of an interrupted run holds
    every dispatched path, whatever the workers had finished. *)
Theorem checkpoint_without_log (cfg : config) (act : action)
    (clock : nat → string) (sched : list event) (d : disk) (st : state) :
  log_path cfg = None →
  st = collect_words_from_inputs cfg act clock sched d →
  st_phase st = SysExit →
  load_logged_files (log_path cfg) (st_disk st) = ∅
  ∧ resume_file (st_disk st) = Some (dispatched cfg d).
Proof.
  intros Hlp Hst Hph.
  rewrite (interrupted_checkpoint cfg act clock sched d st Hst Hph).
  rewrite Hlp. simpl. split; [done|]. f_equal.
  induction (dispatched cfg d) as [|f fs IH]; [done|].
  rewrite filter_cons, decide_True by set_solver. by rewrite IH.
Qed.

(** ** Runs without signal and without failing read *)

Section Quiet.

Context (cfg : config) (act : action) (clock : nat → string).

Lemma merged_alter_work d i w ts :
  merged d (alter (λ t, Task (path t) w (yielded t)) i ts) = merged d ts.
Proof. unfold merged. by rewrite fmap_alter_same. Qed.

Lemma merged_alter_yielded d i ts t :
  ts !! i = Some t →
  merged d (alter (λ t, Task (path t) (work t) true) i ts)
  = merged d ts ∪ file_words d (path t).
Proof.
  unfold merged. revert i.
  induction ts as [|t' ts IH]; intros i Hi; [by destruct i|].
  destruct i as [|i]; csimpl in *.
  - injection Hi as ->. destruct (yielded t); set_solver.
  - rewrite (IH i Hi). set_solver.
Qed.

Lemma merged_all d ts :
  Forall (λ t, yielded t = true) ts → merged d ts = union_of d (path <$> ts).
Proof.
  unfold merged, union_of. induction 1 as [|t ts Ht _ IH]; csimpl; [done|].
  by rewrite Ht, IH.
Qed.

Lemma file_words_tree d d' p : tree d = tree d' → file_words d p = file_words d' p.
Proof. unfold file_words. by intros ->. Qed.

Lemma work_step_quiet d i st st' :
  quiet_inv d st → work_step cfg act clock i st = Some st' → quiet_inv d st'.
Proof.
  intros (Hf & Htr & Hts & Hph) H. unfold work_step in H.
  destruct (tasks st !! i) as [t|] eqn:Hi; simplify_eq/=.
  pose proof (proj1 (Forall_lookup _ _) Hts i t Hi) as Ht.
  unfold task_quiet in Ht. rewrite Hf in H.
  assert (∀ w, task_quiet d (Task (path t) w (yielded t)) →
            quiet_inv d (set_work i w st)) as Hset.
  { intros w Hw. unfold quiet_inv, set_work. simpl.
    rewrite merged_alter_work, alter_work_paths. repeat split; try done.
    apply Forall_alter; [done|]. intros t' Ht' _. by simplify_eq. }
  destruct (work t) as [|[|line rest] ws|ws|ws] eqn:Hw.
  - destruct (can_start _ _ _); [|done].
    destruct (tree (st_disk st) !! path t) as [[text|l]|] eqn:Hp; simplify_eq;
      try apply (Hset (Returned ∅)); try apply (Hset (Reading _ _));
      unfold task_quiet; simpl; unfold file_words; rewrite <-Htr, Hp; done.
  - simplify_eq. apply Hset. unfold task_quiet. simpl in *. naive_solver.
  - simplify_eq. apply Hset. unfold task_quiet. simpl in *. naive_solver.
  - destruct (log_path cfg) as [[|c p]|]; simplify_eq;
      apply Hset; unfold task_quiet; simpl; naive_solver.
  - done.
Qed.

Lemma yield_step_quiet d i st st' :
  quiet_inv d st → yield_step i st = Some st' → quiet_inv d st'.
Proof.
  intros (Hf & Htr & Hts & Hph) H. unfold yield_step in H.
  destruct (tasks st !! i) as [t|] eqn:Hi; simplify_eq/=.
  pose proof (proj1 (Forall_lookup _ _) Hts i t Hi) as Ht.
  unfold task_quiet in Ht.
  destruct (st_phase st) eqn:Hp; try done.
  destruct (work t) as [| | |ws] eqn:Hw; try done.
  destruct (yielded t) eqn:Hy; [done|]. rewrite Hf in H. simplify_eq.
  unfold quiet_inv. simpl. rewrite (merged_alter_yielded d i _ t) by done.
  repeat split; try done; [|by rewrite Hph].
  apply Forall_alter; [done|]. intros t' Ht' _. simplify_eq.
  unfold task_quiet. simpl. by rewrite Hw.
Qed.

Lemma join_step_quiet d st st' :
  quiet_inv d st → join_step cfg st = Some st' → quiet_inv d st'.
Proof.
  intros (Hf & Htr & Hts & Hph) H. unfold join_step in H.
  destruct (st_phase st) eqn:Hp; try done.
  destruct (forallb _ _) eqn:Hall; [|done]. simplify_eq.
  unfold finish. rewrite Hf. unfold quiet_inv. simpl.
  repeat split; try done. rewrite Hph. apply merged_all.
  apply Is_true_true, forallb_True in Hall. eapply Forall_impl; [exact Hall|].
  intros t Ht. apply andb_True in Ht as [_ Ht]. by apply Is_true_true.
Qed.

Lemma step_quiet d e st st' :
  quiet_event e = true →
  quiet_inv d st → step cfg act clock e st = Some st' → quiet_inv d st'.
Proof.
  intros He Hinv H. unfold step in H.
  destruct (is_live st); [|done].
  apply fmap_Some in H as (s1 & H & ->).
  assert (quiet_inv d s1) as Hs1; [|done].
  destruct e; simpl in *; try done;
    eauto using work_step_quiet, yield_step_quiet, join_step_quiet.
Qed.

Lemma exec_quiet d sched st :
  quiet sched → quiet_inv d st → quiet_inv d (exec cfg act clock sched st).
Proof.
  intros Hq. revert st. induction Hq as [|e sched He _ IH]; intros st Hinv;
    simpl; [done|].
  apply IH. destruct (step cfg act clock e st) as [st'|] eqn:Hs; simpl;
    eauto using step_quiet.
Qed.

Lemma start_quiet all_files out d : quiet_inv d (start cfg all_files out d).
Proof.
  unfold start. case_bool_decide; unfold quiet_inv; simpl.
  - repeat split; try done.
    + apply Forall_fmap, Forall_true. done.
    + unfold merged. induction all_files; simpl; [done|]. set_solver.
  - repeat split; done.
Qed.

(** What a completed quiet run returns: the union of the words of the
    dispatched sources. *)
Lemma collect_quiet sched d ws :
  quiet sched →
  st_phase (collect_words_from_inputs cfg act clock sched d) = Finished ws →
  ws = union_of d (dispatched cfg d).
Proof.
  intros Hq. unfold collect_words_from_inputs, dispatched.
  destruct (select_sources cfg d) as [all_files|]; simpl.
  - set (out := (enumerate _ _ _).2).
    pose proof (exec_quiet d sched _ Hq (start_quiet all_files out d))
      as (_ & _ & _ & Hph).
    intros Hfin. rewrite Hfin in Hph. rewrite Hph, exec_paths.
    unfold start. case_bool_decide as Ht; simpl.
    + by rewrite <-list_fmap_compose, list_fmap_id.
    + rewrite exec_final in Hfin by (unfold start; by rewrite bool_decide_false).
      unfold start in Hfin. by rewrite bool_decide_false in Hfin.
  - by intros [= <-].
Qed.

End Quiet.

(** ** Every run can be completed *)

Section Progress.

Context (cfg : config) (act : action) (clock : nat → string).
Context (Hthreads : (0 < threads cfg)%Z).

Lemma sum_list_alter_lt {A} (f : A → nat) (g : A → A) i (l : list A) x :
  l !! i = Some x → f (g x) < f x →
  sum_list (f <$> alter g i l) < sum_list (f <$> l).
Proof.
  revert i. induction l as [|y l IH]; intros i Hi Hlt; [by destruct i|].
  destruct i as [|i]; csimpl in *.
  - injection Hi as ->. lia.
  - specialize (IH i Hi Hlt). lia.
Qed.

Lemma filter_none {A} (P : A → Prop) `{∀ x, Decision (P x)} (l : list A) :
  Forall (λ x, ¬ P x) l → filter P l = [].
Proof.
  induction 1 as [|x l Hx _ IH]; [done|].
  by rewrite filter_cons, decide_False.
Qed.

(** A step that only moves task [i] forward lowers the cost of the run. *)
Lemma run_cost_alter i g t st st' :
  tasks st !! i = Some t →
  is_live st = true →
  tree (st_disk st') = tree (st_disk st) →
  tasks st' = alter g i (tasks st) →
  task_cost (tree (st_disk st)) (g t) < task_cost (tree (st_disk st)) t →
  run_cost st' < run_cost st.
Proof.
  intros Hi Hl Htr Hts Hlt. unfold run_cost. rewrite Htr, Hts, Hl.
  pose proof (sum_list_alter_lt (task_cost (tree (st_disk st))) g i _ t Hi Hlt).
  destruct (is_live st'); lia.
Qed.

Lemma no_running_can_start i (ts : list task) t :
  list_find (λ t, is_running t = true) ts = None →
  list_find (λ t, is_queued t = true) ts = Some (i, t) →
  can_start (threads cfg) ts i = true.
Proof.
  intros Hrun Hq. unfold can_start. apply andb_true_iff. split.
  - apply bool_decide_eq_true. apply list_find_None in Hrun.
    rewrite filter_none by done. simpl. lia.
  - apply Is_true_true, forallb_True, Forall_forall. intros t' Ht'.
    apply list_find_Some in Hq as (_ & _ & Hbefore).
    apply list_elem_of_lookup in Ht' as [j Hj].
    apply lookup_take_Some in Hj as [Hj Hlt].
    specialize (Hbefore j t' Hj Hlt). apply Is_true_true, negb_true_iff.
    by destruct (is_queued t').
Qed.

(** The scheduler always has a step to take, and the step lowers the cost. *)
Lemma next_event_step st :
  is_live st = true →
  ∃ e st', next_event st = Some e ∧ quiet_event e = true
           ∧ step cfg act clock e st = Some st' ∧ run_cost st' < run_cost st.
Proof.
  intros Hl. unfold next_event, step. rewrite Hl.
  destruct (list_find (λ t, is_running t = true) (tasks st)) as [[i t]|] eqn:Hrun.
  { apply list_find_Some in Hrun as (Hi & Hr & _).
    exists (Work i). unfold work_step. rewrite Hi. simpl.
    unfold is_running in Hr.
    destruct (work t) as [|[|line rest] ws|ws|ws] eqn:Hw; try done.
    - eexists. repeat split. eapply (run_cost_alter i); eauto.
      unfold task_cost; simpl. rewrite Hw. simpl. lia.
    - destruct (should_exit st); eexists; (repeat split);
        (eapply (run_cost_alter i); eauto);
        unfold task_cost; simpl; rewrite Hw; simpl; lia.
    - destruct (log_path cfg) as [[|c p]|]; [| destruct (should_exit st) |];
        eexists; (repeat split); (eapply (run_cost_alter i); eauto);
        unfold task_cost; simpl; rewrite Hw; simpl; lia. }
  destruct (list_find (λ t, is_queued t = true) (tasks st)) as [[i t]|] eqn:Hq.
  { pose proof (no_running_can_start i _ t Hrun Hq) as Hcan.
    apply list_find_Some in Hq as (Hi & Hqt & _).
    exists (Work i). unfold work_step. rewrite Hi. simpl.
    unfold is_queued in Hqt.
    destruct (work t) eqn:Hw; try done. rewrite Hcan.
    destruct (tree (st_disk st) !! path t) as [[text|l]|] eqn:Hp;
      eexists; (repeat split); (eapply (run_cost_alter i); eauto);
      unfold task_cost; simpl; rewrite Hw, Hp; simpl; lia. }
  apply list_find_None in Hrun, Hq.
  assert (Forall (λ t, is_returned t = true) (tasks st)) as Hret.
  { apply Forall_forall. intros t Ht.
    pose proof (proj1 (Forall_forall _ _) Hrun t Ht).
    pose proof (proj1 (Forall_forall _ _) Hq t Ht).
    unfold is_running, is_queued, is_returned in *. by destruct (work t). }
  assert (∀ st', is_live st' = false → tree (st_disk st') = tree (st_disk st) →
            tasks st' = tasks st → run_cost st' < run_cost st) as Hend.
  { intros st' Hl' Htr Hts. unfold run_cost. rewrite Hl, Hl', Htr, Hts. lia. }
  assert (forallb is_returned (tasks st) = true) as Hretb.
  { apply Is_true_true, forallb_True. eapply Forall_impl; [exact Hret|].
    intros t Ht. by apply Is_true_true. }
  unfold is_live in Hl. destruct (st_phase st) eqn:Hph; try done.
  - destruct (list_find (λ t, yielded t = false) (tasks st)) as [[i t]|] eqn:Hy.
    + apply list_find_Some in Hy as (Hi & Hyt & _).
      exists (Yield i). unfold yield_step. rewrite Hi, Hph. simpl.
      pose proof (proj1 (Forall_lookup _ _) Hret i t Hi) as Hrt.
      unfold is_returned in Hrt. destruct (work t) as [| | |ws] eqn:Hw; try done.
      rewrite Hyt.
      destruct (should_exit st); eexists; (repeat split);
        (eapply (run_cost_alter i); [exact Hi|by unfold is_live; rewrite Hph|done|done|]);
        unfold task_cost; simpl; rewrite Hw, Hyt; lia.
    + apply list_find_None in Hy.
      exists Join. unfold join_step. rewrite Hph.
      assert (forallb (λ t, is_returned t && yielded t) (tasks st) = true) as ->.
      { apply Is_true_true, forallb_True, Forall_forall. intros t Ht.
        pose proof (proj1 (Forall_forall _ _) Hret t Ht) as ->.
        pose proof (proj1 (Forall_forall _ _) Hy t Ht) as Hyt.
        simpl in Hyt. destruct (yielded t); simpl; [done|by destruct Hyt]. }
      eexists. repeat split. apply Hend; unfold finish;
        by destruct (should_exit st).
  - exists Join. unfold join_step. rewrite Hph, Hretb.
    eexists. repeat split. apply Hend; unfold finish;
      by destruct (should_exit st).
Qed.

(** Given fuel for the cost of the run, the scheduler completes it, with
    neither signal nor failing read. *)
Lemma drive_completes n st :
  run_cost st ≤ n →
  quiet (drive cfg act clock n st)
  ∧ is_live (exec cfg act clock (drive cfg act clock n st) st) = false.
Proof.
  revert st. induction n as [|n IH]; intros st Hn.
  - assert (is_live st = false) as Hl.
    { unfold run_cost in Hn. destruct (is_live st); [lia|done]. }
    split; [constructor|done].
  - simpl. destruct (is_live st) eqn:Hl.
    + destruct (next_event_step st Hl) as (e & st' & -> & Hq & Hs & Hlt).
      rewrite Hs. simpl. rewrite Hs. simpl.
      destruct (IH st') as [IH1 IH2]; [lia|]. split; [by constructor|done].
    + unfold next_event. rewrite Hl. split; [constructor|done].
Qed.

End Progress.

(** ** The words of a file *)

Lemma elem_of_add_line w acc line :
  w ∈ add_line acc line ↔ w ∈ acc ∨ (strip line = w ∧ w ≠ "").
Proof.
  unfold add_line. destruct (strip line) as [|c s] eqn:Hs.
  - naive_solver.
  - rewrite elem_of_union, elem_of_singleton. naive_solver.
Qed.

Lemma elem_of_foldl_add_line w acc ls :
  w ∈ foldl add_line acc ls
  ↔ w ∈ acc ∨ ∃ line, line ∈ ls ∧ strip line = w ∧ w ≠ "".
Proof.
  revert acc. induction ls as [|l ls IH]; intros acc; simpl.
  - split; [by left|]. intros [H|(line & H & _)]; [done|].
    by apply elem_of_nil in H.
  - rewrite IH, elem_of_add_line. split.
    + intros [[H|H]|(line & H1 & H2)]; [by left|right..].
      * exists l. split; [left|done].
      * exists line. split; [by right|done].
    + intros [H|(line & H1 & H2)]; [by left; left|].
      apply elem_of_cons in H1 as [->|H1]; [left; by right|].
      right. by exists line.
Qed.

(** The words of a text: its lines, trimmed, the empty ones left out. *)
Lemma elem_of_line_set w text :
  w ∈ line_set text ↔ ∃ line, line ∈ file_lines text ∧ strip line = w ∧ w ≠ "".
Proof.
  unfold line_set. rewrite elem_of_foldl_add_line. set_solver.
Qed.

Lemma lstrip_first s c :
  first_char (lstrip s) = Some c → py_isspace c = false.
Proof.
  induction s as [|a s IH]; simpl; [done|].
  destruct (py_isspace a) eqn:Ha; [done|]. simpl. by intros [= <-].
Qed.

Lemma rstrip_last s c :
  last_char (rstrip s) = Some c → py_isspace c = false.
Proof.
  revert c. induction s as [|a s IH]; intros c; simpl; [done|].
  destruct (rstrip s) as [|b r] eqn:Hr.
  - destruct (py_isspace a) eqn:Ha; simpl; [done|]. by intros [= <-].
  - simpl. intros H. apply IH. by simpl.
Qed.

Lemma lstrip_last s :
  lstrip s ≠ "" → last_char (lstrip s) = last_char s.
Proof.
  induction s as [|a s IH]; simpl; [done|].
  destruct (py_isspace a); [|done]. intros H. rewrite (IH H).
  destruct s; [done|done].
Qed.

Lemma mem_char_lstrip c s : mem_char c (lstrip s) = true → mem_char c s = true.
Proof.
  induction s as [|a s IH]; simpl; [done|].
  destruct (py_isspace a); [|done]. intros H. rewrite (IH H). apply orb_true_r.
Qed.

Lemma mem_char_rstrip c s : mem_char c (rstrip s) = true → mem_char c s = true.
Proof.
  induction s as [|a s IH]; simpl; [done|].
  destruct (rstrip s) as [|b r].
  - destruct (py_isspace a); simpl; [done|]. rewrite orb_false_r.
    intros ->. done.
  - simpl in *. intros [->|H]%orb_true_iff; [done|].
    rewrite (IH H). apply orb_true_r.
Qed.

Lemma split_lines_body s : Forall line_body (split_lines s).
Proof.
  induction s as [|c s IH]; simpl; [constructor|].
  destruct (Ascii.eqb c LF) eqn:Hc.
  - constructor; [|done]. exists "". split; [done|by right].
  - destruct (split_lines s) as [|l ls]; constructor.
    + exists (String c ""). simpl. rewrite Ascii.eqb_sym, Hc. by split; [|left].
    + constructor.
    + apply Forall_cons in IH as [(b & Hb & Hl) _].
      exists (String c b). simpl. rewrite Ascii.eqb_sym, Hc. split; [done|].
      destruct Hl as [->| ->]; [by left|by right].
    + by apply Forall_cons in IH as [_ IH].
Qed.

Lemma mem_char_split_lines c s line :
  line ∈ split_lines s → mem_char c line = true → mem_char c s = true.
Proof.
  revert line. induction s as [|a s IH]; intros line; simpl.
  - by intros ?%elem_of_nil.
  - destruct (Ascii.eqb a LF) eqn:Ha.
    + apply Ascii.eqb_eq in Ha as ->.
      intros [->|H]%elem_of_cons.
      * simpl. rewrite orb_false_r. by intros ->.
      * intros Hc. rewrite (IH line H Hc). apply orb_true_r.
    + destruct (split_lines s) as [|l ls].
      * intros ->%list_elem_of_singleton. simpl. rewrite orb_false_r.
        by intros ->.
      * intros [->|H]%elem_of_cons.
        -- simpl. intros [->|Hc]%orb_true_iff; [done|].
           rewrite (IH l) by (done || left). apply orb_true_r.
        -- intros Hc. rewrite (IH line) by (done || by right).
           apply orb_true_r.
Qed.

Lemma universal_newlines_no_CR s :
  mem_char CR (universal_newlines s) = false
  ∧ ∀ c, mem_char CR (universal_newlines (String c s)) = false.
Proof.
  induction s as [|a s [IH1 IH2]].
  - split; [done|]. intros c. simpl.
    destruct (Ascii.eqb c CR) eqn:Hc; simpl; [done|].
    by rewrite Ascii.eqb_sym, Hc.
  - split; [apply IH2|]. intros c.
    change (universal_newlines (String c (String a s))) with
      (if Ascii.eqb c CR
       then if Ascii.eqb a LF then String LF (universal_newlines s)
            else String LF (universal_newlines (String a s))
       else String c (universal_newlines (String a s))).
    assert (∀ x t, mem_char CR (String x t) = Ascii.eqb CR x || mem_char CR t)
      as Hcons by done.
    destruct (Ascii.eqb c CR) eqn:Hc.
    + destruct (Ascii.eqb a LF); rewrite Hcons; [by rewrite IH1|].
      by rewrite (IH2 a).
    + rewrite Hcons. by rewrite Ascii.eqb_sym, Hc, (IH2 a).
Qed.

(** What a worker keeps of a line is a word of the data model. *)
Lemma strip_line_is_word text line :
  line ∈ file_lines text → strip line ≠ "" → is_word (strip line) = true.
Proof.
  intros Hin Hne. unfold is_word.
  assert (mem_char CR (strip line) = false) as HCR.
  { apply not_true_is_false. intros H.
    apply mem_char_lstrip, mem_char_rstrip in H.
    apply (mem_char_split_lines CR _ _ Hin) in H.
    by rewrite (proj1 (universal_newlines_no_CR text)) in H. }
  assert (mem_char LF (strip line) = false) as HLF.
  { apply not_true_is_false. intros H. apply mem_char_lstrip in H.
    pose proof (proj1 (Forall_forall _ _) (split_lines_body _) line Hin)
      as (b & Hb & [->| ->]).
    - apply mem_char_rstrip in H. congruence.
    - rewrite rstrip_app_space in H by done.
      apply mem_char_rstrip in H. congruence. }
  rewrite HCR, HLF. simpl.
  destruct (first_char (strip line)) as [a|] eqn:Ha.
  - unfold strip in Ha. rewrite (lstrip_first _ _ Ha). simpl.
    unfold strip in *. rewrite lstrip_last by done.
    destruct (last_char (rstrip line)) as [b|] eqn:Hb.
    + by rewrite (rstrip_last _ _ Hb).
    + destruct (rstrip line) as [|x r]; [done|].
      simpl in Hb. clear -Hb. exfalso. revert x Hb.
      induction r as [|y r IH]; intros x; simpl; [done|]. apply IH.
  - by destruct (strip line).
Qed.

Lemma line_set_is_word text w : w ∈ line_set text → is_word w = true.
Proof.
  intros (line & Hin & <- & Hne)%elem_of_line_set.
  by apply (strip_line_is_word text).
Qed.

Lemma file_words_is_word d p w : w ∈ file_words d p → is_word w = true.
Proof.
  unfold file_words. destruct (tree d !! p) as [[text|l]|]; [|set_solver..].
  apply line_set_is_word.
Qed.

Lemma elem_of_union_of d ps w :
  w ∈ union_of d ps ↔ ∃ p, p ∈ ps ∧ w ∈ file_words d p.
Proof.
  unfold union_of. rewrite elem_of_union_list. split.
  - intros (X & HX & Hw). apply list_elem_of_fmap in HX as (p & -> & Hp).
    by exists p.
  - intros (p & Hp & Hw). exists (file_words d p). split; [|done].
    apply list_elem_of_fmap. by exists p.
Qed.

Lemma union_of_is_word d ps w : w ∈ union_of d ps → is_word w = true.
Proof.
  intros (p & _ & Hw)%elem_of_union_of. by apply (file_words_is_word d p).
Qed.

(** ** Union correctness *)

Lemma step_not_raised cfg act clock e st st' :
  step cfg act clock e st = Some st' → st_phase st' ≠ Raised.
Proof.
  intros H Hph. destruct (step_ends cfg act clock e st st' H) as [-> ->].
  { unfold is_live. by rewrite Hph. }
  unfold finish in Hph. by destruct (should_exit st).
Qed.

Lemma exec_not_raised cfg act clock sched st :
  st_phase st ≠ Raised → st_phase (exec cfg act clock sched st) ≠ Raised.
Proof.
  apply (exec_invariant cfg act clock (λ s, st_phase s ≠ Raised)).
  intros e s s' _. apply step_not_raised.
Qed.

(** A quiet schedule that completes the run, whatever the inputs. *)
Lemma quiet_run_exists cfg act clock d :
  (0 < threads cfg)%Z →
  ∃ sched ws, quiet sched
    ∧ st_phase (collect_words_from_inputs cfg act clock sched d) = Finished ws.
Proof.
  intros Ht. unfold collect_words_from_inputs.
  destruct (select_sources cfg d) as [all_files|].
  - set (st0 := start cfg all_files (enumerate (files cfg) (folders cfg) d).2 d).
    destruct (drive_completes cfg act clock Ht (run_cost st0) st0)
      as [Hq Hend]; [done|].
    set (sched := drive cfg act clock (run_cost st0) st0) in *.
    exists sched.
    pose proof (exec_quiet cfg act clock d sched st0 Hq (start_quiet _ _ _ _))
      as (_ & _ & _ & Hph).
    assert (st_phase (exec cfg act clock sched st0) ≠ Raised) as Hnr.
    { apply exec_not_raised. unfold st0. rewrite start_phase.
      by rewrite bool_decide_true. }
    unfold is_live in Hend.
    destruct (st_phase (exec cfg act clock sched st0)) as [| |ws| |]; try done.
    by exists ws.
  - exists [], ∅. split; [constructor|done].
Qed.

Lemma save_result_Saved gz bz seed c st :
  res_outcome (save_result gz bz seed c st) = Saved →
  ∃ ws, st_phase st = Finished ws
        ∧ res_disk (save_result gz bz seed c st)
          = save_master gz bz (seed ∪ ws) c (st_disk st).
Proof.
  unfold save_result. destruct (st_phase st) as [| |ws| |]; try done.
  intros _. by exists ws.
Qed.

(** A create run that no signal and no failing read disturbs can always be
    completed, and however its threads are interleaved the master file it
    writes holds, in [sorted] order and without duplicate, exactly the
    trimmed non-empty lines of the dispatched sources: the file reads back
    as their union. *)
Lemma dispatched_union gz bz (cfg : config) (clock : nat → string)
    (c : compression) (d : disk) :
  (0 < threads cfg)%Z →
  (∃ sched, quiet sched
     ∧ res_outcome (create_master gz bz cfg clock c sched d) = Saved)
  ∧ ∀ sched,
      quiet sched →
      res_outcome (create_master gz bz cfg clock c sched d) = Saved →
      master_text gz bz c (res_disk (create_master gz bz cfg clock c sched d))
      = Some (write_lines (sorted (union_of d (dispatched cfg d))))
      ∧ NoDup (sorted (union_of d (dispatched cfg d)))
      ∧ line_set (write_lines (sorted (union_of d (dispatched cfg d))))
        = union_of d (dispatched cfg d)
      ∧ ∀ w, w ∈ sorted (union_of d (dispatched cfg d))
             ↔ ∃ p body line,
                 p ∈ dispatched cfg d ∧ tree d !! p = Some (File body)
                 ∧ line ∈ file_lines body ∧ strip line = w ∧ w ≠ "".
Proof.
  intros Ht. split.
  - destruct (quiet_run_exists cfg CREATE clock d Ht) as (sched & ws & Hq & Hph).
    exists sched. split; [done|].
    unfold create_master, save_result. by rewrite Hph.
  - intros sched Hq Hs. unfold create_master in *.
    apply save_result_Saved in Hs as (ws & Hph & ->).
    apply (collect_quiet cfg CREATE clock sched d ws Hq) in Hph as ->.
    rewrite (left_id_L ∅ (∪)).
    split; [apply master_text_save_master|].
    split; [apply sorted_NoDup|]. split.
    + rewrite line_set_write_lines, list_to_set_sorted; [done|].
      apply Forall_forall. intros w Hw%elem_of_sorted.
      by apply (union_of_is_word d (dispatched cfg d)).
    + intros w. rewrite elem_of_sorted, elem_of_union_of. split.
      * intros (p & Hp & Hw). unfold file_words in Hw.
        destruct (tree d !! p) as [[body|l]|] eqn:Hb; [|set_solver..].
        apply elem_of_line_set in Hw as (line & Hl & Hw & Hne).
        by exists p, body, line.
      * intros (p & body & line & Hp & Hb & Hl & Hw & Hne).
        exists p. split; [done|]. unfold file_words. rewrite Hb.
        apply elem_of_line_set. by exists line.
Qed.

Lemma elem_of_concat {A} (x : A) (ls : list (list A)) :
  x ∈ concat ls ↔ ∃ l, x ∈ l ∧ l ∈ ls.
Proof.
  induction ls as [|l ls IH]; simpl.
  - split; [by intros ?%elem_of_nil|]. by intros (l & _ & ?%elem_of_nil).
  - rewrite elem_of_app, IH. split.
    + intros [Hx|(l' & Hx & Hl)]; [exists l|exists l']; split; try done;
        [left|by right].
    + intros (l' & Hx & [->|Hl]%elem_of_cons); [by left|right]. by exists l'.
Qed.

Lemma elem_of_input_sources cfg d p :
  p ∈ input_sources cfg d
  ↔ (p ∈ files cfg ∧ isfile d p = true)
    ∨ ∃ folder, folder ∈ folders cfg ∧ isdir d folder = true
                ∧ p ∈ glob_txt d folder.
Proof.
  unfold input_sources. rewrite elem_of_app, list_elem_of_filter. split.
  - intros [[Hf Hp]|Hp]; [by left|right].
    apply elem_of_concat in Hp as (l & Hp & Hl).
    apply list_elem_of_fmap in Hl as (folder & -> & Hfo).
    unfold expansion in Hp. destruct (isdir d folder) eqn:Hd.
    + by exists folder.
    + by apply elem_of_nil in Hp.
  - intros [[Hp Hf]|(folder & Hfo & Hd & Hp)]; [by left|right].
    apply elem_of_concat. exists (expansion d folder). split.
    + unfold expansion. by rewrite Hd.
    + apply list_elem_of_fmap. by exists folder.
Qed.

(** When neither the skip filter nor a checkpoint is in effect, the input
    sources are what is dispatched. *)
Lemma dispatched_input_sources cfg d :
  skip_logged cfg && truthy (log_path cfg) = false →
  checkpoint_used cfg d = false →
  dispatched cfg d = input_sources cfg d.
Proof.
  intros Hs Hc. unfold dispatched, select_sources, input_sources.
  rewrite <-enumerate_fst.
  destruct (enumerate (files cfg) (folders cfg) d).1 as [|f fs]; [done|].
  rewrite Hs. simpl. unfold checkpoint_used in Hc.
  destruct (resume cfg); [|done]. simpl in Hc.
  by destruct (load_resume_state d) as [[|]|].
Qed.

(** C1, amended. A create run with neither the skip filter nor a checkpoint
    in effect, that no signal and no failing read disturbs, can always be
    completed, and however its threads are interleaved the master file it
    writes holds, in [sorted] order and without duplicate, exactly the
    trimmed non-empty lines of its input sources: the explicit paths that
    are regular files and the matches of the folders that exist. *)
Theorem union_correctness gz bz (cfg : config) (clock : nat → string)
    (c : compression) (d : disk) :
  (0 < threads cfg)%Z →
  skip_logged cfg && truthy (log_path cfg) = false →
  checkpoint_used cfg d = false →
  (∃ sched, quiet sched
     ∧ res_outcome (create_master gz bz cfg clock c sched d) = Saved)
  ∧ ∀ sched,
      quiet sched →
      res_outcome (create_master gz bz cfg clock c sched d) = Saved →
      master_text gz bz c (res_disk (create_master gz bz cfg clock c sched d))
      = Some (write_lines (sorted (union_of d (input_sources cfg d))))
      ∧ NoDup (sorted (union_of d (input_sources cfg d)))
      ∧ line_set (write_lines (sorted (union_of d (input_sources cfg d))))
        = union_of d (input_sources cfg d)
      ∧ ∀ w, w ∈ sorted (union_of d (input_sources cfg d))
             ↔ ∃ p body line,
                 (p ∈ files cfg
                  ∨ ∃ folder, folder ∈ folders cfg ∧ isdir d folder = true
                              ∧ p ∈ glob_txt d folder)
                 ∧ tree d !! p = Some (File body)
                 ∧ line ∈ file_lines body ∧ strip line = w ∧ w ≠ "".
Proof.
  intros Ht Hs Hc.
  destruct (dispatched_union gz bz cfg clock c d Ht) as [Hex Hall].
  split; [done|]. intros sched Hq Hsaved.
  destruct (Hall sched Hq Hsaved) as (Htext & Hnd & Hback & Hw).
  rewrite (dispatched_input_sources cfg d Hs Hc) in *.
  repeat split; try done.
  - intros (p & body & line & Hp & Hb & Hrest)%Hw.
    exists p, body, line. split; [|done].
    apply elem_of_input_sources in Hp as [[Hp _]|Hp]; [by left|by right].
  - intros (p & body & line & Hp & Hb & Hrest). apply Hw.
    exists p, body, line. split; [|done].
    apply elem_of_input_sources.
    destruct Hp as [Hp|Hp]; [left|by right].
    split; [done|]. unfold isfile. by rewrite Hb.
Qed.

(** ** The ledger *)

(** C5, amended. With logging enabled, a step writes the log only when it
    is the step of a worker at line 142, which a worker reaches when no read
    of its source has failed; there it appends one entry for the source, the
    count being the number of distinct words seen, if and only if
    [should_exit] is not set, whether words were seen or not. *)
Theorem ledger_entry (cfg : config) (act : action) (clock : nat → string)
    (lp : string) (st : state) :
  log_path cfg = Some lp → lp ≠ "" → is_live st = true →
  (∀ i t ws,
     tasks st !! i = Some t → work t = AtLog ws →
     ∃ st', step cfg act clock (Work i) st = Some st'
       ∧ work <$> tasks st' !! i = Some (Returned ws)
       ∧ logs (st_disk st')
         = if should_exit st then logs (st_disk st)
           else <[lp := default "" (logs (st_disk st) !! lp)
                        +:+ log_line (clock (st_tick st)) act (path t) (size ws)]>
                  (logs (st_disk st)))
  ∧ (∀ e st',
       step cfg act clock e st = Some st' →
       (∀ i t ws, e = Work i → tasks st !! i = Some t → work t ≠ AtLog ws) →
       logs (st_disk st') = logs (st_disk st)).
Proof.
  intros Hlp Hne Hl. split.
  - intros i t ws Hi Hw. unfold step, work_step. rewrite Hl, Hi. simpl.
    rewrite Hw, Hlp. destruct lp as [|c p]; [done|].
    destruct (should_exit st); eexists; (split; [done|]); simpl;
      rewrite list_lookup_alter_eq, Hi; done.
  - intros e st' H Hnot. unfold step in H. rewrite Hl in H.
    apply fmap_Some in H as (s1 & H & ->). simpl.
    destruct e as [|i|i|i|]; simpl in H.
    + by injection H as <-.
    + unfold work_step in H.
      destruct (tasks st !! i) as [t|] eqn:Hi; [|done]. simpl in H.
      destruct (work t) as [|[|line rest] ws|ws|ws] eqn:Hw;
        repeat (simplify_option_eq || case_match); try done.
      all: by destruct (Hnot i t ws).
    + unfold fault_step in H. repeat (simplify_option_eq || case_match); done.
    + unfold yield_step in H. repeat (simplify_option_eq || case_match); done.
    + apply join_step_finish in H as ->. unfold finish.
      by destruct (should_exit st).
Qed.

(** ** Sources that cannot be read *)

(** C8, amended. When the open or a read of a source fails, the run goes on
    and can be completed, the error is reported, and the worker returns the
    words of the lines it had read before the failure: none when the failure
    is at the open, those already read when it comes later. *)
Theorem failing_read (cfg : config) (act : action) (clock : nat → string)
    (e : event) (i : nat) (t : task) (st st' : state) :
  (0 < threads cfg)%Z →
  tasks st !! i = Some t →
  read_fails e i st t →
  step cfg act clock e st = Some st' →
  tasks st' = alter (λ t, Task (path t) (Returned (kept t)) (yielded t)) i (tasks st)
  ∧ (work t = Queued → kept t = ∅)
  ∧ st_out st' = st_out st ++ [ErrorReading (path t)]
  ∧ st_phase st' = st_phase st ∧ words st' = words st
  ∧ st_disk st' = st_disk st
  ∧ ∃ sched, quiet sched
      ∧ is_live (exec cfg act clock sched st') = false
      ∧ st_phase (exec cfg act clock sched st') ≠ Raised.
Proof.
  intros Ht Hi Hf H.
  pose proof (step_live cfg act clock e st st' H) as Hl.
  assert (is_live st' = true ∧
          tasks st' = alter (λ t, Task (path t) (Returned (kept t)) (yielded t))
                            i (tasks st)
          ∧ st_out st' = st_out st ++ [ErrorReading (path t)]
          ∧ st_phase st' = st_phase st ∧ words st' = words st
          ∧ st_disk st' = st_disk st) as (Hl' & Hts & Hout & Hph & Hw & Hd).
  { unfold step in H. rewrite Hl in H.
    apply fmap_Some in H as (s1 & H & ->). unfold is_live in *. simpl.
    destruct Hf as [->|(-> & Hq & Hnf)]; simpl in H.
    - unfold fault_step in H. rewrite Hi in H. simpl in H.
      destruct (work t) eqn:Hwt; repeat (simplify_option_eq || case_match);
        simpl; repeat split; try done;
        apply list_alter_ext; try done; intros t' Ht'; simplify_eq;
        unfold kept; by rewrite Hwt.
    - unfold work_step in H. rewrite Hi in H. simpl in H. rewrite Hq in H.
      destruct (can_start _ _ _); [|done].
      destruct (tree (st_disk st) !! path t) as [[text|l]|] eqn:Hp;
        [by destruct (Hnf text)|..]; simplify_eq; simpl; repeat split;
        try done; apply list_alter_ext; try done; intros t' Ht'; simplify_eq;
        unfold kept; by rewrite Hq. }
  repeat split; try done.
  - intros Hq. unfold kept. by rewrite Hq.
  - destruct (drive_completes cfg act clock Ht (run_cost st') st')
      as [Hq Hend]; [done|].
    eexists. split; [exact Hq|]. split; [done|].
    apply exec_not_raised. unfold is_live in Hl'. by destruct (st_phase st').
Qed.

(** * Concrete runs *)

Example concrete_scenario :
  let r := create_master ex_gz ex_bz ab_cfg ex_clock Plain ab_sched ab_disk in
  res_outcome r = Saved
  ∧ master_txt (res_disk r) = Some ("bar" +:+ nl +:+ "baz" +:+ nl +:+ "foo" +:+ nl).
Proof. vm_compute. done. Qed.

Example concrete_add :
  let sched := drive add_cfg ADD ex_clock 20
                     (start add_cfg ["new.txt"] [] add_disk) in
  let r := add_to_master ex_gz ex_bz add_cfg ex_clock Plain sched add_disk in
  res_outcome r = Saved
  ∧ master_txt (res_disk r) = Some ("a" +:+ nl +:+ "b" +:+ nl +:+ "c" +:+ nl).
Proof. vm_compute. done. Qed.

(** C1 fails as stated: a run over [a.txt] asked to resume finds the
    checkpoint of an earlier run and saves the words of [b.txt] only; a run
    with the skip filter leaves out the words of the logged [A.txt].  Neither
    run is interrupted, and neither master is the union over the input
    sources. *)
Lemma union_correctness_counterexample :
  (quiet one_sched
   ∧ input_sources stale_cfg stale_b_disk = ["a.txt"]
   ∧ file_words stale_b_disk "a.txt" = {[ "foo" ]}
   ∧ res_outcome (create_master ex_gz ex_bz stale_cfg ex_clock Plain one_sched
                    stale_b_disk) = Saved
   ∧ master_text ex_gz ex_bz Plain
       (res_disk (create_master ex_gz ex_bz stale_cfg ex_clock Plain
                    one_sched stale_b_disk))
     = Some ("bar" +:+ nl)
   ∧ master_text ex_gz ex_bz Plain
       (res_disk (create_master ex_gz ex_bz stale_cfg ex_clock Plain
                    one_sched stale_b_disk))
     ≠ Some (write_lines
               (sorted (union_of stale_b_disk
                          (input_sources stale_cfg stale_b_disk)))))
  ∧ (input_sources (skip_cfg false) (skip_disk None) = ["A.txt"; "B.txt"]
     ∧ file_words (skip_disk None) "A.txt" = {[ "foo" ]}
     ∧ res_outcome (create_master ex_gz ex_bz (skip_cfg false) ex_clock Plain
                      one_sched (skip_disk None)) = Saved
     ∧ master_text ex_gz ex_bz Plain
         (res_disk (create_master ex_gz ex_bz (skip_cfg false) ex_clock
                      Plain one_sched (skip_disk None)))
       = Some ("bar" +:+ nl)
     ∧ master_text ex_gz ex_bz Plain
         (res_disk (create_master ex_gz ex_bz (skip_cfg false) ex_clock
                      Plain one_sched (skip_disk None)))
       ≠ Some (write_lines
                 (sorted (union_of (skip_disk None)
                            (input_sources (skip_cfg false) (skip_disk None)))))).
Proof.
  split.
  - split; [repeat constructor|]. vm_compute. repeat split; done.
  - vm_compute. repeat split; done.
Qed.

Lemma union_correctness_witness :
  (0 < threads ab_cfg)%Z
  ∧ skip_logged ab_cfg && truthy (log_path ab_cfg) = false
  ∧ checkpoint_used ab_cfg ab_disk = false
  ∧ master_text ex_gz ex_bz Plain
      (res_disk (create_master ex_gz ex_bz ab_cfg ex_clock Plain ab_sched ab_disk))
    = Some ("bar" +:+ nl +:+ "baz" +:+ nl +:+ "foo" +:+ nl).
Proof.
  split; [reflexivity|]. split; [reflexivity|]. split; [reflexivity|].
  rewrite (proj1 (proj2 (union_correctness ex_gz ex_bz ab_cfg ex_clock Plain
                           ab_disk ltac:(reflexivity) eq_refl eq_refl)
                        ab_sched ltac:(repeat constructor)
                        ltac:(vm_compute; reflexivity))).
  vm_compute. reflexivity.
Defined.

Lemma resume_exactness_witness :
  st_phase (collect_words_from_inputs abc_cfg CREATE ex_clock abc_sched abc_disk)
  = SysExit
  ∧ resume_file (st_disk (collect_words_from_inputs abc_cfg CREATE ex_clock
                            abc_sched abc_disk))
    = Some ["B.txt"; "C.txt"].
Proof.
  split; [vm_compute; reflexivity|].
  apply (proj2 (resume_exactness abc_cfg CREATE ex_clock abc_sched abc_disk _
                  eq_refl ltac:(vm_compute; reflexivity))
               "A.txt" "B.txt" "C.txt").
  - vm_compute. reflexivity.
  - vm_compute. reflexivity.
  - intros H. vm_compute in H. discriminate H.
  - intros H. vm_compute in H. discriminate H.
Defined.

Lemma checkpoint_without_log_witness :
  st_phase (collect_words_from_inputs nolog_cfg CREATE ex_clock abc_sched abc_disk)
  = SysExit
  ∧ resume_file (st_disk (collect_words_from_inputs nolog_cfg CREATE ex_clock
                            abc_sched abc_disk))
    = Some ["A.txt"; "B.txt"; "C.txt"].
Proof.
  split; [vm_compute; reflexivity|].
  apply (proj2 (checkpoint_without_log nolog_cfg CREATE ex_clock abc_sched
                  abc_disk _ eq_refl eq_refl ltac:(vm_compute; reflexivity))).
Defined.

(** C3 fails as stated: with an older plain master on the disk, a save in
    gzip mode is followed by a load of the plain file; and a word with a CR
    inside is read back as two words. *)
Lemma round_trip_counterexample :
  ((∀ w, w ∈ ({[ "new" ]} : gset string) → is_word w = true)
   ∧ load_master ex_gz ex_bz (save_master ex_gz ex_bz {[ "new" ]} Gzip old_disk)
     = Loaded {[ "old" ]}
   ∧ load_master ex_gz ex_bz (save_master ex_gz ex_bz {[ "new" ]} Gzip old_disk)
     ≠ Loaded {[ "new" ]})
  ∧ (mem_char LF cr_word = false
     ∧ strip cr_word = cr_word
     ∧ load_master ex_gz ex_bz (save_master ex_gz ex_bz {[ cr_word ]} Plain no_disk)
       = Loaded {[ "a"; "b" ]}
     ∧ load_master ex_gz ex_bz (save_master ex_gz ex_bz {[ cr_word ]} Plain no_disk)
       ≠ Loaded {[ cr_word ]}).
Proof.
  split.
  - split; [by intros w ->%elem_of_singleton|].
    split; [vm_compute; reflexivity|].
    intros H. vm_compute in H. discriminate H.
  - split; [reflexivity|]. split; [reflexivity|].
    split; [vm_compute; reflexivity|].
    intros H. vm_compute in H. discriminate H.
Qed.

Lemma round_trip_witness :
  load_master ex_gz ex_bz
    (save_master ex_gz ex_bz {[ "bar"; "baz"; "foo" ]} Bz2 no_disk)
  = Loaded {[ "bar"; "baz"; "foo" ]}.
Proof.
  apply round_trip.
  - intros w Hw.
    apply elem_of_union in Hw as [Hw|Hw];
      [apply elem_of_union in Hw as [Hw|Hw]|];
      apply elem_of_singleton in Hw; subst; reflexivity.
  - split; reflexivity.
Defined.

Lemma sort_invariant_witness :
  file_lines (write_lines (sorted {[ "foo"; "bar"; "baz" ]}))
  = ["bar" +:+ nl; "baz" +:+ nl; "foo" +:+ nl].
Proof.
  destruct (sort_invariant ex_gz ex_bz {[ "foo"; "bar"; "baz" ]} Gzip no_disk)
    as (text & _ & -> & _ & _ & Hlines).
  rewrite Hlines; [reflexivity|].
  intros w Hw.
  apply elem_of_union in Hw as [Hw|Hw];
    [apply elem_of_union in Hw as [Hw|Hw]|];
    apply elem_of_singleton in Hw; subst; reflexivity.
Defined.

(** C4 fails as stated: with an empty enumeration nothing is dispatched
    although the checkpoint holds a path, and an empty pending list leaves the
    enumerated sequence in place. *)
Lemma resume_replaces_counterexample :
  (resume (resume_cfg []) = true
   ∧ load_resume_state (resume_disk ["b.txt"]) = Some ["b.txt"]
   ∧ dispatched (resume_cfg []) (resume_disk ["b.txt"]) = [])
  ∧ (resume (resume_cfg ["a.txt"]) = true
     ∧ load_resume_state (resume_disk []) = Some []
     ∧ dispatched (resume_cfg ["a.txt"]) (resume_disk []) = ["a.txt"]).
Proof. vm_compute. done. Qed.

Lemma resume_replaces_witness :
  dispatched (resume_cfg ["a.txt"]) (resume_disk ["b.txt"; "c.txt"])
  = ["b.txt"; "c.txt"].
Proof.
  apply (proj1 (resume_replaces (resume_cfg ["a.txt"]) CREATE ex_clock
                  (resume_disk ["b.txt"; "c.txt"]) ["b.txt"; "c.txt"]
                  eq_refl eq_refl ltac:(discriminate)
                  ltac:(vm_compute; discriminate))).
Defined.

(** C6 fails as stated: with resume requested as well, the checkpoint
    replaces the filtered sequence and A, though logged, is dispatched. *)
Lemma skip_logged_counterexample :
  skip_logged (skip_cfg true) = true
  ∧ isfile (skip_disk (Some ["A.txt"; "B.txt"])) "A.txt" = true
  ∧ ("A.txt" ∈ load_logged_files (log_path (skip_cfg true))
                  (skip_disk (Some ["A.txt"; "B.txt"])))
  ∧ ("A.txt" ∈ dispatched (skip_cfg true) (skip_disk (Some ["A.txt"; "B.txt"]))).
Proof.
  split; [reflexivity|]. split; [vm_compute; reflexivity|].
  split; [vm_compute; reflexivity|].
  assert (dispatched (skip_cfg true) (skip_disk (Some ["A.txt"; "B.txt"]))
          = ["A.txt"; "B.txt"]) as -> by (vm_compute; reflexivity).
  by left.
Qed.

Lemma skip_logged_excludes_witness :
  ("A.txt" ∉ dispatched (skip_cfg false) (skip_disk (Some ["A.txt"; "B.txt"])))
  ∧ dispatched (skip_cfg false) (skip_disk (Some ["A.txt"; "B.txt"])) = ["B.txt"].
Proof.
  split; [|vm_compute; reflexivity].
  apply (skip_logged_excludes (skip_cfg false)
           (skip_disk (Some ["A.txt"; "B.txt"])) "A.txt").
  - reflexivity.
  - reflexivity.
  - vm_compute. reflexivity.
Defined.

(** C9 fails as stated: a file named twice, or named and found in a
    folder, occurs twice in the enumerated sequence. *)
Lemma enumerate_counterexample :
  (enumerate ["a.txt"; "a.txt"] [] dup_disk).1 = ["a.txt"; "a.txt"]
  ∧ ¬ NoDup (enumerate ["a.txt"; "a.txt"] [] dup_disk).1
  ∧ (enumerate ["lists/b.txt"] ["lists"] dup_disk).1
    = ["lists/b.txt"; "lists/b.txt"]
  ∧ ¬ NoDup (enumerate ["lists/b.txt"] ["lists"] dup_disk).1.
Proof.
  assert ((enumerate ["a.txt"; "a.txt"] [] dup_disk).1 = ["a.txt"; "a.txt"])
    as -> by (vm_compute; reflexivity).
  assert ((enumerate ["lists/b.txt"] ["lists"] dup_disk).1
          = ["lists/b.txt"; "lists/b.txt"]) as -> by (vm_compute; reflexivity).
  repeat split; try done;
    intros [Hn _]%NoDup_cons; apply Hn; by left.
Qed.

Example enumerate_reports :
  enumerate ["a.txt"; "gone.txt"] ["lists"; "nowhere"] dup_disk
  = (["a.txt"; "lists/b.txt"], [FileNotFound "gone.txt"; FolderNotFound "nowhere"]).
Proof. vm_compute. reflexivity. Qed.

(** C5 fails as stated: an empty source, read without cancellation, gets
    its ledger entry, with count 0. *)
Lemma ledger_entry_counterexample :
  file_words empty_disk "empty.txt" = ∅
  ∧ should_exit (empty_run empty_sched) = false
  ∧ st_phase (empty_run empty_sched) = Finished ∅
  ∧ logs (st_disk (empty_run empty_sched)) !! "listman.log"
    = Some ("T2 | CREATE | empty.txt | 0 words" +:+ nl).
Proof. vm_compute. done. Qed.

Lemma ledger_entry_witness :
  ∃ st', step empty_cfg CREATE ex_clock (Work 0) (empty_run [Work 0; Work 0])
         = Some st'
    ∧ logs (st_disk st')
      = {[ "listman.log" := "T2 | CREATE | empty.txt | 0 words" +:+ nl ]}.
Proof.
  destruct (proj1 (ledger_entry empty_cfg CREATE ex_clock "listman.log"
                     (empty_run [Work 0; Work 0])
                     eq_refl ltac:(discriminate) ltac:(vm_compute; reflexivity))
                  0 (Task "empty.txt" (AtLog ∅) false) ∅
                  ltac:(vm_compute; reflexivity) eq_refl)
    as (st' & Hstep & _ & Hlogs).
  exists st'. split; [exact Hstep|].
  rewrite Hlogs. vm_compute. reflexivity.
Defined.

(** C8 fails as stated: a read that fails after the first line leaves that
    line's word in the master. *)
Lemma failing_read_counterexample :
  let r := create_master ex_gz ex_bz fail_cfg ex_clock Plain fail_sched two_lines in
  res_outcome r = Saved
  ∧ res_out r = [ErrorReading "a.txt"]
  ∧ master_txt (res_disk r) = Some ("foo" +:+ nl).
Proof. vm_compute. done. Qed.

Lemma failing_read_witness :
  ∃ st', step fail_cfg CREATE ex_clock (Fault 0)
              (collect_words_from_inputs fail_cfg CREATE ex_clock
                 [Work 0; Work 0] two_lines) = Some st'
    ∧ work <$> tasks st' = [Returned {[ "foo" ]}]
    ∧ st_out st' = [ErrorReading "a.txt"].
Proof.
  eexists. split; [vm_compute; reflexivity|].
  match goal with
  | |- context [tasks ?s] =>
      destruct (failing_read fail_cfg CREATE ex_clock (Fault 0) 0
                  (Task "a.txt" (Reading ["bar" +:+ nl] {[ "foo" ]}) false)
                  (collect_words_from_inputs fail_cfg CREATE ex_clock
                     [Work 0; Work 0] two_lines) s
                  ltac:(reflexivity) ltac:(vm_compute; reflexivity)
                  ltac:(by left) ltac:(vm_compute; reflexivity))
        as (Hts & _ & Hout & _)
  end.
  rewrite Hts, Hout. vm_compute. split; reflexivity.
Defined.

(** ** Further runs *)

Example strip_example : strip ("  bar " +:+ nl) = "bar".
Proof. reflexivity. Qed.

Example file_lines_example :
  file_lines ("foo" +:+ String CR nl +:+ " bar " +:+ String CR "baz")
  = ["foo" +:+ nl; " bar " +:+ nl; "baz"].
Proof. reflexivity. Qed.

(** A logged path is read back from the log; a path that holds the
    delimiter is cut at it. *)
Example load_logged_files_example :
  elements (load_logged_files (Some "l")
              (Disk ∅ {[ "l" := log_line "T0" ADD "dir/a.txt" 3
                                 +:+ log_line "T1" CREATE "x|y.txt" 12 ]}
                    None None None None))
  = ["dir/a.txt"; "x"].
Proof. vm_compute. reflexivity. Qed.

(** An interrupted run writes the checkpoint and no master. *)
Example interrupted_run :
  let r := create_master ex_gz ex_bz abc_cfg ex_clock Plain abc_sched abc_disk in
  res_outcome r = Interrupted
  ∧ master_txt (res_disk r) = None
  ∧ resume_file (res_disk r) = Some ["B.txt"; "C.txt"]
  ∧ logs (res_disk r) !! "listman.log"
    = Some ("T4 | CREATE | A.txt | 2 words" +:+ nl).
Proof. vm_compute. done. Qed.

(** A clean run removes a stale checkpoint. *)
Example clean_run_clears_checkpoint :
  let d := Disk ab_tree ∅ (Some ["old.txt"]) None None None in
  let r := create_master ex_gz ex_bz ab_cfg ex_clock Gzip ab_sched d in
  res_outcome r = Saved
  ∧ resume_file (res_disk r) = None
  ∧ master_text ex_gz ex_bz Gzip (res_disk r)
    = Some ("bar" +:+ nl +:+ "baz" +:+ nl +:+ "foo" +:+ nl).
Proof. vm_compute. done. Qed.

(** A pool of no thread cannot be created. *)
Example no_thread :
  res_outcome (create_master ex_gz ex_bz (Config ["a.txt"] [] 0 None false false)
                 ex_clock Plain ab_sched ab_disk) = Failed.
Proof. vm_compute. reflexivity. Qed.

(** Without a master, add mode refuses. *)
Example add_without_master :
  add_to_master ex_gz ex_bz add_cfg ex_clock Plain [] ab_disk
  = Result Refused ab_disk [NoMasterFound].
Proof. reflexivity. Qed.

(** * Further properties *)

(** ** What holds under every schedule *)

Section Sound.

Context (cfg : config) (act : action) (clock : nat → string).

Lemma subseteq_foldl_add_line acc ls : acc ⊆ foldl add_line acc ls.
Proof. intros w Hw. apply elem_of_foldl_add_line. by left. Qed.

Lemma task_sound_flag d flag t : task_sound d flag t → task_sound d true t.
Proof.
  unfold task_sound. destruct (work t); try done.
  intros (Hf & Hs & _). by repeat split.
Qed.

Lemma file_words_subseteq_union_of d ps p :
  p ∈ ps → file_words d p ⊆ union_of d ps.
Proof. intros Hp w Hw. apply elem_of_union_of. by exists p. Qed.

Lemma sound_set_work d i w t st :
  sound_inv d st → tasks st !! i = Some t →
  task_sound d (should_exit st) (Task (path t) w (yielded t)) →
  sound_inv d (set_work i w st).
Proof.
  intros (Htr & Hm & Hts & Hw & Hfin) Hi Ht.
  unfold sound_inv, set_work. simpl. rewrite alter_work_paths.
  repeat split; try done; try apply Hm.
  apply Forall_alter; [done|]. intros t' Ht' _. by simplify_eq.
Qed.

Lemma work_step_sound d i st st' :
  sound_inv d st → work_step cfg act clock i st = Some st' → sound_inv d st'.
Proof.
  intros Hinv H. pose proof Hinv as (Htr & Hm & Hts & Hw & Hfin).
  unfold work_step in H.
  destruct (tasks st !! i) as [t|] eqn:Hi; simplify_eq/=.
  pose proof (proj1 (Forall_lookup _ _) Hts i t Hi) as Ht.
  unfold task_sound in Ht.
  pose proof (sound_set_work d i) as Hset.
  destruct (work t) as [|[|line rest] ws|ws|ws] eqn:Hwt.
  - destruct (can_start _ _ _); [|done].
    destruct (tree (st_disk st) !! path t) as [[text|l]|] eqn:Hp; simplify_eq.
    + apply (Hset _ t); try done. unfold task_sound, isfile, file_words. simpl.
      rewrite <-Htr, Hp. done.
    + apply (Hset (Returned ∅) t); try done; unfold task_sound; simpl; set_solver.
    + apply (Hset (Returned ∅) t); try done; unfold task_sound; simpl; set_solver.
  - simplify_eq. apply (Hset _ t); try done. unfold task_sound. simpl in *.
    destruct Ht as [Hf Hs]. rewrite <-Hs. done.
  - destruct Ht as [Hf Hs].
    destruct (should_exit st) eqn:Hflag; simplify_eq;
      apply (Hset _ t); try done; unfold task_sound; simpl; rewrite ?Hflag.
    repeat split; try done. rewrite <-Hs.
    apply subseteq_foldl_add_line.
  - destruct Ht as (Hf & Hs & _).
    destruct (log_path cfg) as [[|c p]|]; [| destruct (should_exit st) |];
      simplify_eq; apply (Hset (Returned ws) t); done.
  - done.
Qed.

Lemma fault_step_sound d i st st' :
  sound_inv d st → fault_step cfg i st = Some st' → sound_inv d st'.
Proof.
  intros Hinv H. pose proof Hinv as (Htr & Hm & Hts & Hw & Hfin).
  unfold fault_step in H.
  destruct (tasks st !! i) as [t|] eqn:Hi; simplify_eq/=.
  pose proof (proj1 (Forall_lookup _ _) Hts i t Hi) as Ht.
  unfold task_sound in Ht.
  destruct (work t) as [|rest ws|ws|ws] eqn:Hwt; try done.
  - destruct (can_start _ _ _); [|done]. simplify_eq.
    apply (sound_set_work d i (Returned ∅) t); try done;
      unfold task_sound; simpl; set_solver.
  - simplify_eq. apply (sound_set_work d i (Returned ws) t); try done.
    unfold task_sound. simpl. destruct Ht as [_ <-].
    apply subseteq_foldl_add_line.
Qed.

Lemma yield_step_sound d i st st' :
  sound_inv d st → yield_step i st = Some st' → sound_inv d st'.
Proof.
  intros (Htr & Hm & Hts & Hw & Hfin) H. unfold yield_step in H.
  destruct (tasks st !! i) as [t|] eqn:Hi; simplify_eq/=.
  pose proof (proj1 (Forall_lookup _ _) Hts i t Hi) as Ht.
  unfold task_sound in Ht.
  destruct (st_phase st) eqn:Hp; try done.
  destruct (work t) as [| | |ws] eqn:Hwt; try done.
  destruct (yielded t) eqn:Hy; [done|].
  assert (Forall (task_sound d (should_exit st))
            (alter (λ t0, Task (path t0) (work t0) true) i (tasks st))) as Hts'.
  { apply Forall_alter; [done|]. intros t' Ht' Hs. simplify_eq. done. }
  assert (ws ⊆ union_of d (path <$> tasks st)) as Hws.
  { etrans; [exact Ht|]. apply file_words_subseteq_union_of.
    apply list_elem_of_fmap. exists t. split; [done|].
    by apply list_elem_of_lookup_2 in Hi. }
  destruct (should_exit st); simplify_eq; unfold sound_inv; simpl;
    rewrite alter_yielded_paths; repeat split; try done; try apply Hm.
  set_solver.
Qed.

Lemma finish_sound d st : sound_inv d st → sound_inv d (finish cfg st).
Proof.
  intros (Htr & Hm & Hts & Hw & Hfin). unfold finish, sound_inv.
  destruct (should_exit st) eqn:Hflag; simpl; rewrite ?Hflag;
    repeat split; try done; try apply Hm.
  by intros ws [= <-].
Qed.

Lemma step_sound d e st st' :
  sound_inv d st → step cfg act clock e st = Some st' → sound_inv d st'.
Proof.
  intros Hinv H. unfold step in H.
  destruct (is_live st); [|done].
  apply fmap_Some in H as (s1 & H & ->).
  assert (sound_inv d s1) as Hs1; [|done].
  destruct e; simpl in H.
  - injection H as <-. destruct Hinv as (Htr & Hm & Hts & Hw & Hfin).
    unfold sound_inv, signal_handler. simpl. repeat split; try done; try apply Hm.
    eapply Forall_impl; [exact Hts|]. intros t. apply task_sound_flag.
  - by eapply work_step_sound.
  - by eapply fault_step_sound.
  - by eapply yield_step_sound.
  - apply join_step_finish in H as ->. by apply finish_sound.
Qed.

Lemma start_sound all_files out d : sound_inv d (start cfg all_files out d).
Proof.
  unfold start. case_bool_decide; unfold sound_inv, same_masters; simpl;
    repeat split; try done.
  apply Forall_fmap, Forall_true. done.
Qed.

Lemma exec_sound d sched st :
  sound_inv d st → sound_inv d (exec cfg act clock sched st).
Proof.
  apply (exec_invariant cfg act clock (sound_inv d)).
  intros e s s'. apply step_sound.
Qed.

Lemma collect_paths sched d all_files :
  select_sources cfg d = Some all_files →
  path <$> tasks (collect_words_from_inputs cfg act clock sched d)
  = if bool_decide (0 < threads cfg)%Z then all_files else [].
Proof.
  intros Hsel. unfold collect_words_from_inputs. rewrite Hsel.
  rewrite exec_paths. unfold start. case_bool_decide; simpl; [|done].
  by rewrite <-list_fmap_compose, list_fmap_id.
Qed.

Lemma union_of_nil d : union_of d [] = ∅.
Proof. done. Qed.

(** Under every schedule the state of the run is sound for the disk it
    started from. *)
Lemma collect_sound sched d :
  sound_inv d (collect_words_from_inputs cfg act clock sched d).
Proof.
  unfold collect_words_from_inputs.
  destruct (select_sources cfg d) as [all_files|].
  - apply exec_sound, start_sound.
  - unfold sound_inv, same_masters. simpl. repeat split; try done.
    by intros ws [= <-].
Qed.

Lemma collect_paths_subseteq sched d :
  path <$> tasks (collect_words_from_inputs cfg act clock sched d)
  ⊆ dispatched cfg d.
Proof.
  unfold dispatched.
  destruct (select_sources cfg d) as [all_files|] eqn:Hsel.
  - rewrite (collect_paths sched d all_files Hsel).
    case_bool_decide; simpl; [done|]. apply list_subseteq_nil.
  - unfold collect_words_from_inputs. rewrite Hsel. done.
Qed.

Lemma union_of_mono d ps qs : ps ⊆ qs → union_of d ps ⊆ union_of d qs.
Proof.
  intros Hsub w (p & Hp & Hw)%elem_of_union_of.
  apply elem_of_union_of. exists p. split; [by apply Hsub|done].
Qed.

End Sound.

(** ** What a run saves, and when *)

Lemma collect_app cfg act clock s1 s2 d :
  collect_words_from_inputs cfg act clock (s1 ++ s2) d
  = exec cfg act clock s2 (collect_words_from_inputs cfg act clock s1 d).
Proof.
  unfold collect_words_from_inputs.
  destruct (select_sources cfg d) as [all_files|].
  - apply exec_app.
  - by rewrite exec_final.
Qed.

Lemma collect_not_raised cfg act clock sched d :
  (0 < threads cfg)%Z →
  st_phase (collect_words_from_inputs cfg act clock sched d) ≠ Raised.
Proof.
  intros Ht. unfold collect_words_from_inputs.
  destruct (select_sources cfg d) as [all_files|]; [|done].
  apply exec_not_raised. rewrite start_phase. by rewrite bool_decide_true.
Qed.

Lemma collect_live_threads cfg act clock sched d :
  is_live (collect_words_from_inputs cfg act clock sched d) = true →
  (0 < threads cfg)%Z.
Proof.
  intros Hl. destruct (decide (0 < threads cfg)%Z) as [|Hn]; [done|].
  unfold collect_words_from_inputs in Hl.
  destruct (select_sources cfg d) as [all_files|]; [|done].
  rewrite exec_final in Hl; unfold is_live in *; rewrite start_phase in *;
    by rewrite bool_decide_false in *.
Qed.

Lemma tree_save_master gz bz ws c d : tree (save_master gz bz ws c d) = tree d.
Proof. by destruct c. Qed.

Lemma save_result_other gz bz seed c st :
  res_outcome (save_result gz bz seed c st) ≠ Saved →
  res_disk (save_result gz bz seed c st) = st_disk st.
Proof. unfold save_result. by destruct (st_phase st). Qed.

Lemma tree_save_result gz bz seed c st :
  tree (res_disk (save_result gz bz seed c st)) = tree (st_disk st).
Proof.
  unfold save_result. destruct (st_phase st); simpl; try done.
  apply tree_save_master.
Qed.

(** X1. Whatever the schedule, signals and failing reads included, the
    master a create run saves holds only trimmed non-empty lines of the
    dispatched sources: every saved word is a word of the data model and
    belongs to the union of the sources. *)
Theorem saved_words_sound gz bz (cfg : config) (clock : nat → string)
    (c : compression) (sched : list event) (d : disk) :
  res_outcome (create_master gz bz cfg clock c sched d) = Saved →
  ∃ ws,
    master_text gz bz c (res_disk (create_master gz bz cfg clock c sched d))
    = Some (write_lines (sorted ws))
    ∧ ws ⊆ union_of d (dispatched cfg d)
    ∧ ∀ w, w ∈ ws → is_word w = true.
Proof.
  unfold create_master. intros (ws & Hph & ->)%save_result_Saved.
  exists ws. rewrite (left_id_L ∅ (∪)).
  split; [apply master_text_save_master|].
  pose proof (collect_sound cfg CREATE clock sched d) as (_ & _ & _ & _ & Hfin).
  assert (ws ⊆ union_of d (dispatched cfg d)) as Hsub.
  { etrans; [by apply Hfin|]. apply union_of_mono, collect_paths_subseteq. }
  split; [done|]. intros w Hw. eapply union_of_is_word. by apply Hsub.
Qed.

(** X2. A run changes the master files only when it saves: an
    interrupted, failed, refused or unfinished run leaves the three master
    files as they were. *)
Theorem master_only_when_saved gz bz (cfg : config) (clock : nat → string)
    (c : compression) (sched : list event) (d : disk) (r : result) :
  r = create_master gz bz cfg clock c sched d
  ∨ r = add_to_master gz bz cfg clock c sched d →
  res_outcome r ≠ Saved →
  same_masters d (res_disk r).
Proof.
  assert (∀ act seed,
    res_outcome (save_result gz bz seed c
                   (collect_words_from_inputs cfg act clock sched d)) ≠ Saved →
    same_masters d
      (res_disk (save_result gz bz seed c
                   (collect_words_from_inputs cfg act clock sched d)))) as Hgen.
  { intros act seed Hne.
    pose proof (collect_sound cfg act clock sched d) as (_ & Hm & _).
    by rewrite save_result_other. }
  intros [-> | ->]; [apply Hgen|].
  unfold add_to_master. destruct (load_master gz bz d); [done..|apply Hgen].
Qed.

Lemma step_flag cfg act clock e st st' :
  should_exit st = true → step cfg act clock e st = Some st' →
  should_exit st' = true.
Proof.
  intros Hf H. unfold step in H. destruct (is_live st); [|done].
  apply fmap_Some in H as (s1 & H & ->). simpl.
  destruct e; simpl in H.
  - by injection H as <-.
  - unfold work_step in H. repeat (simplify_option_eq || case_match); done.
  - unfold fault_step in H. repeat (simplify_option_eq || case_match); done.
  - unfold yield_step in H. repeat (simplify_option_eq || case_match); done.
  - apply join_step_finish in H as ->. unfold finish. by rewrite Hf.
Qed.

(** Once [should_exit] is set, the run cannot return its words. *)
Lemma flagged_run cfg act clock sched st :
  should_exit st = true → is_live st = true →
  should_exit (exec cfg act clock sched st) = true
  ∧ (is_live (exec cfg act clock sched st) = false →
     st_phase (exec cfg act clock sched st) = SysExit).
Proof.
  intros Hf Hl.
  apply (exec_invariant cfg act clock
           (λ s, should_exit s = true ∧ (is_live s = false → st_phase s = SysExit))).
  - intros e s s' [Hfs _] Hs. split; [by eapply step_flag|].
    intros Hl'. destruct (step_ends cfg act clock e s s' Hs Hl') as [-> ->].
    unfold finish. by rewrite Hfs.
  - split; [done|]. by rewrite Hl.
Qed.

(** X3. A signal that arrives while the pool is at work ends the run
    without a master: whatever comes after it, the run is interrupted or
    still under way, the master files are untouched, and the run can be
    brought to the interruption exit. *)
Theorem signal_stops_run gz bz (cfg : config) (clock : nat → string)
    (c : compression) (s1 : list event) (d : disk) :
  is_live (collect_words_from_inputs cfg CREATE clock s1 d) = true →
  (∀ s2,
     (res_outcome (create_master gz bz cfg clock c (s1 ++ Signal :: s2) d)
      = Interrupted
      ∨ res_outcome (create_master gz bz cfg clock c (s1 ++ Signal :: s2) d)
        = Unfinished)
     ∧ same_masters d
         (res_disk (create_master gz bz cfg clock c (s1 ++ Signal :: s2) d)))
  ∧ ∃ s2, quiet s2
      ∧ res_outcome (create_master gz bz cfg clock c (s1 ++ Signal :: s2) d)
        = Interrupted.
Proof.
  intros Hl. set (st1 := collect_words_from_inputs cfg CREATE clock s1 d) in *.
  assert (∃ st2, step cfg CREATE clock Signal st1 = Some st2
                 ∧ should_exit st2 = true ∧ is_live st2 = true)
    as (st2 & Hst2 & Hf2 & Hl2).
  { unfold step. rewrite Hl. simpl. eexists. split; [done|]. split; [done|].
    unfold is_live in *. done. }
  assert (∀ s2, collect_words_from_inputs cfg CREATE clock (s1 ++ Signal :: s2) d
                = exec cfg CREATE clock s2 st2) as Hrun.
  { intros s2. rewrite collect_app. fold st1. simpl. by rewrite Hst2. }
  split.
  - intros s2. unfold create_master. rewrite Hrun.
    pose proof (flagged_run cfg CREATE clock s2 st2 Hf2 Hl2) as [_ Hend].
    assert (res_outcome (save_result gz bz ∅ c (exec cfg CREATE clock s2 st2))
            = Interrupted
            ∨ res_outcome (save_result gz bz ∅ c (exec cfg CREATE clock s2 st2))
              = Unfinished) as Hout.
    { unfold save_result, is_live in *.
      destruct (st_phase (exec cfg CREATE clock s2 st2)); simpl; auto;
        by specialize (Hend eq_refl). }
    split; [done|]. rewrite save_result_other by (destruct Hout; congruence).
    rewrite <-Hrun. apply (collect_sound cfg CREATE clock _ d).
  - pose proof (collect_live_threads cfg CREATE clock s1 d Hl) as Ht.
    destruct (drive_completes cfg CREATE clock Ht (run_cost st2) st2)
      as [Hq Hend]; [done|].
    eexists. split; [exact Hq|]. unfold create_master. rewrite Hrun.
    pose proof (flagged_run cfg CREATE clock
                  (drive cfg CREATE clock (run_cost st2) st2) st2 Hf2 Hl2)
      as [_ Hex].
    unfold save_result. by rewrite (Hex Hend).
Qed.

(** X4. A pool of at least one thread never gets stuck: after any sequence
    of events, signals and failing reads included, the run can be brought to
    an end, and it ends by saving the master or by the interruption exit. *)
Theorem run_can_end gz bz (cfg : config) (clock : nat → string)
    (c : compression) (s1 : list event) (d : disk) :
  (0 < threads cfg)%Z →
  ∃ s2, quiet s2
    ∧ (res_outcome (create_master gz bz cfg clock c (s1 ++ s2) d) = Saved
       ∨ res_outcome (create_master gz bz cfg clock c (s1 ++ s2) d)
         = Interrupted).
Proof.
  intros Ht. set (st1 := collect_words_from_inputs cfg CREATE clock s1 d).
  destruct (drive_completes cfg CREATE clock Ht (run_cost st1) st1)
    as [Hq Hend]; [done|].
  eexists. split; [exact Hq|]. unfold create_master. rewrite collect_app.
  fold st1. unfold save_result.
  assert (st_phase (exec cfg CREATE clock
                      (drive cfg CREATE clock (run_cost st1) st1) st1) ≠ Raised)
    as Hnr.
  { unfold st1. rewrite <-collect_app. by apply collect_not_raised. }
  unfold is_live in Hend.
  destruct (st_phase (exec cfg CREATE clock _ st1)); simpl; try done; auto.
Qed.

(** X5. A run that returns its words leaves no checkpoint behind, unless
    nothing was enumerated: then line 166 returns before the checkpoint is
    read or removed, and a stale checkpoint stays. *)
Theorem checkpoint_after_return (cfg : config) (act : action)
    (clock : nat → string) (sched : list event) (d : disk) (ws : gset string) :
  st_phase (collect_words_from_inputs cfg act clock sched d) = Finished ws →
  resume_file (st_disk (collect_words_from_inputs cfg act clock sched d))
  = match (enumerate (files cfg) (folders cfg) d).1 with
    | [] => resume_file d
    | _ => None
    end.
Proof.
  unfold collect_words_from_inputs, select_sources.
  destruct (enumerate (files cfg) (folders cfg) d) as [[|f fs] out]; simpl;
    [done|].
  match goal with |- context [start cfg ?l out d] => generalize l end.
  intros all_files. revert ws.
  apply (exec_invariant cfg act clock
           (λ s, ∀ ws, st_phase s = Finished ws → resume_file (st_disk s) = None)).
  - intros e s s' _ Hs ws Hph.
    destruct (step_ends cfg act clock e s s' Hs) as [-> ->].
    { unfold is_live. by rewrite Hph. }
    unfold finish in *. by destruct (should_exit s).
  - intros ws. rewrite start_phase. by case_bool_decide.
Qed.

Lemma sorted_empty : sorted ∅ = [].
Proof. unfold sorted. by rewrite elements_empty. Qed.

(** X6. When no source is enumerated, a create run starts no pool and
    writes an empty master file in the chosen mode, whatever the schedule,
    the thread count and the resume flag; the rest of the disk stays as it
    was and the missing inputs are reported. *)
Theorem create_from_nothing gz bz (cfg : config) (clock : nat → string)
    (c : compression) (sched : list event) (d : disk) :
  (enumerate (files cfg) (folders cfg) d).1 = [] →
  create_master gz bz cfg clock c sched d
  = Result Saved (save_master gz bz ∅ c d) (enumerate (files cfg) (folders cfg) d).2
  ∧ master_text gz bz c (save_master gz bz ∅ c d) = Some ""
  ∧ resume_file (save_master gz bz ∅ c d) = resume_file d
  ∧ logs (save_master gz bz ∅ c d) = logs d.
Proof.
  intros He. unfold create_master, collect_words_from_inputs, select_sources.
  rewrite He. unfold save_result. simpl. rewrite (left_id_L ∅ (∪)).
  split; [done|]. rewrite master_text_save_master, sorted_empty.
  by destruct c.
Qed.

(** X7. With sources to read and a thread count of zero or less, the pool
    cannot be created: the run fails before any file is read, whatever the
    schedule, and the disk is left as it was. *)
Theorem create_without_threads gz bz (cfg : config) (clock : nat → string)
    (c : compression) (sched : list event) (d : disk) :
  (threads cfg ≤ 0)%Z →
  (enumerate (files cfg) (folders cfg) d).1 ≠ [] →
  create_master gz bz cfg clock c sched d
  = Result Failed d (enumerate (files cfg) (folders cfg) d).2.
Proof.
  intros Ht He. unfold create_master, collect_words_from_inputs.
  destruct (select_sources cfg d) as [all_files|] eqn:Hsel.
  - rewrite exec_final.
    + unfold start. rewrite bool_decide_false by lia. done.
    + unfold is_live. rewrite start_phase. by rewrite bool_decide_false by lia.
  - unfold select_sources in Hsel.
    by destruct (enumerate (files cfg) (folders cfg) d).1.
Qed.

Lemma scan_files_snd d fs acc :
  (foldl (scan_file d) acc fs).2
  = acc.2 ++ (FileNotFound <$> filter (λ f, isfile d f = false) fs).
Proof.
  revert acc. induction fs as [|f fs IH]; intros acc; simpl.
  - by rewrite app_nil_r.
  - rewrite IH. unfold scan_file. rewrite filter_cons.
    destruct (decide (isfile d f = false)) as [Hf|Hf].
    + rewrite Hf. simpl. by rewrite <-app_assoc.
    + apply not_false_is_true in Hf. by rewrite Hf.
Qed.

Lemma scan_folders_snd d fo acc :
  (foldl (scan_folder d) acc fo).2
  = acc.2 ++ (FolderNotFound <$> filter (λ f, isdir d f = false) fo).
Proof.
  revert acc. induction fo as [|f fo IH]; intros acc; simpl.
  - by rewrite app_nil_r.
  - rewrite IH. unfold scan_folder. rewrite filter_cons.
    destruct (decide (isdir d f = false)) as [Hf|Hf].
    + rewrite Hf. simpl. by rewrite <-app_assoc.
    + apply not_false_is_true in Hf. by rewrite Hf.
Qed.

(** X8. The enumeration reports every explicit path that is no regular
    file and every folder path that is no directory, once per mention and in
    the order given, files first; an explicit path is enumerated exactly when
    it is not reported. *)
Theorem enumerate_reports_missing (fs fo : list string) (d : disk) :
  (enumerate fs fo d).2
  = (FileNotFound <$> filter (λ f, isfile d f = false) fs)
    ++ (FolderNotFound <$> filter (λ f, isdir d f = false) fo)
  ∧ ∀ f, f ∈ fs →
      (FileNotFound f ∈ (enumerate fs fo d).2 ↔ isfile d f = false)
      ∧ (isfile d f = true → f ∈ (enumerate fs fo d).1).
Proof.
  assert ((enumerate fs fo d).2
          = (FileNotFound <$> filter (λ f, isfile d f = false) fs)
            ++ (FolderNotFound <$> filter (λ f, isdir d f = false) fo)) as Heq.
  { unfold enumerate. by rewrite scan_folders_snd, scan_files_snd. }
  split; [done|]. intros f Hf. split.
  - rewrite Heq, elem_of_app, !list_elem_of_fmap. split.
    + intros [(g & [= ->] & Hg)|(g & [=] & _)].
      by apply list_elem_of_filter in Hg as [Hg _].
    + intros Hn. left. exists f. split; [done|].
      by apply list_elem_of_filter.
  - intros Hy. rewrite enumerate_fst, elem_of_app. left.
    by apply list_elem_of_filter.
Qed.

(** ** Add mode and resuming *)

Lemma load_master_is_word gz bz d ws w :
  load_master gz bz d = Loaded ws → w ∈ ws → is_word w = true.
Proof.
  unfold load_master. intros H Hw.
  destruct (master_txt d) as [text|]; [|destruct (master_gz d) as [bytes|];
    [destruct (inflate gz bytes) as [text|]; [|done]
    |destruct (master_bz2 d) as [bytes|];
       [destruct (inflate bz bytes) as [text|]; [|done]|done]]];
    injection H as <-; by apply (line_set_is_word text).
Qed.

Lemma scan_tree d d' :
  tree d' = tree d →
  (∀ acc f, scan_file d' acc f = scan_file d acc f)
  ∧ (∀ acc f, scan_folder d' acc f = scan_folder d acc f).
Proof.
  intros Htr. unfold scan_file, scan_folder, isfile, isdir, glob_txt.
  by rewrite Htr.
Qed.

Lemma foldl_same {A B} (f g : A → B → A) (l : list B) (a : A) :
  (∀ a b, f a b = g a b) → foldl f a l = foldl g a l.
Proof.
  intros Hfg. revert a. induction l as [|b l IH]; intros a; simpl; [done|].
  by rewrite Hfg, IH.
Qed.

(** The enumeration reads the input tree and nothing else. *)
Lemma enumerate_tree fs fo d d' :
  tree d' = tree d → enumerate fs fo d' = enumerate fs fo d.
Proof.
  intros [Hf Hd]%scan_tree. unfold enumerate.
  rewrite (foldl_same _ _ fo _ Hd). f_equal. by apply foldl_same.
Qed.

Lemma union_of_tree d d' ps :
  tree d' = tree d → union_of d' ps = union_of d ps.
Proof.
  intros Htr. unfold union_of. f_equal. apply list_fmap_ext.
  intros _ p _. by apply file_words_tree.
Qed.

(** Without skip filter and without resume, the tree decides what is
    dispatched. *)
Lemma dispatched_tree cfg d d' :
  skip_logged cfg = false → resume cfg = false → tree d' = tree d →
  dispatched cfg d' = dispatched cfg d.
Proof.
  intros Hs Hr Htr. unfold dispatched, select_sources.
  rewrite (enumerate_tree _ _ d d' Htr), Hs, Hr. done.
Qed.

(** What add mode saves when nothing disturbs the run. *)
Lemma add_quiet gz bz cfg clock c sched d existing :
  load_master gz bz d = Loaded existing →
  quiet sched →
  res_outcome (add_to_master gz bz cfg clock c sched d) = Saved →
  res_disk (add_to_master gz bz cfg clock c sched d)
  = save_master gz bz (existing ∪ union_of d (dispatched cfg d)) c
      (st_disk (collect_words_from_inputs cfg ADD clock sched d)).
Proof.
  intros Hload Hq. unfold add_to_master. rewrite Hload.
  intros (ws & Hph & ->)%save_result_Saved.
  by apply (collect_quiet cfg ADD clock sched d ws Hq) in Hph as ->.
Qed.

(** X9. Add mode keeps what the master held: when nothing disturbs the run,
    the master saved is, in sorted order, the union of the existing entries
    and of the trimmed non-empty lines of the dispatched sources, and it
    reads back as that set; such a run can always be completed. *)
Theorem add_union gz bz (cfg : config) (clock : nat → string)
    (c : compression) (d : disk) (existing : gset string) :
  load_master gz bz d = Loaded existing →
  (0 < threads cfg)%Z →
  (∃ sched, quiet sched
     ∧ res_outcome (add_to_master gz bz cfg clock c sched d) = Saved)
  ∧ ∀ sched,
      quiet sched →
      res_outcome (add_to_master gz bz cfg clock c sched d) = Saved →
      master_text gz bz c (res_disk (add_to_master gz bz cfg clock c sched d))
      = Some (write_lines (sorted (existing ∪ union_of d (dispatched cfg d))))
      ∧ line_set (write_lines (sorted (existing ∪ union_of d (dispatched cfg d))))
        = existing ∪ union_of d (dispatched cfg d).
Proof.
  intros Hload Ht. split.
  - destruct (quiet_run_exists cfg ADD clock d Ht) as (sched & ws & Hq & Hph).
    exists sched. split; [done|].
    unfold add_to_master, save_result. by rewrite Hload, Hph.
  - intros sched Hq Hs. rewrite (add_quiet _ _ _ _ _ _ _ existing) by done.
    split; [apply master_text_save_master|].
    rewrite line_set_write_lines, list_to_set_sorted; [done|].
    apply Forall_forall. intros w [Hw|Hw]%elem_of_sorted%elem_of_union.
    + by apply (load_master_is_word gz bz d existing).
    + by apply (union_of_is_word d (dispatched cfg d)).
Qed.

Lemma none_before_same c d d' :
  same_masters d d' → none_before c d → none_before c d'.
Proof.
  intros (Ht & Hg & Hb). destruct c; simpl; [done|congruence|].
  intros [??]. split; congruence.
Qed.

(** X10. Adding the same sources a second time changes nothing in what
    the master holds: without skip filter and resume, when nothing disturbs
    the two runs and no master file that the loader prefers to the mode
    written exists, the master loaded after the second add is the set loaded
    after the first, and the text of the file written is the same. *)
Theorem add_twice gz bz (cfg : config) (clock : nat → string)
    (c : compression) (s1 s2 : list event) (d : disk) :
  skip_logged cfg = false → resume cfg = false →
  none_before c d →
  quiet s1 → quiet s2 →
  res_outcome (add_to_master gz bz cfg clock c s1 d) = Saved →
  res_outcome (add_to_master gz bz cfg clock c s2
                 (res_disk (add_to_master gz bz cfg clock c s1 d))) = Saved →
  ∃ ws,
    load_master gz bz (res_disk (add_to_master gz bz cfg clock c s1 d))
    = Loaded ws
    ∧ load_master gz bz
        (res_disk (add_to_master gz bz cfg clock c s2
                     (res_disk (add_to_master gz bz cfg clock c s1 d))))
      = Loaded ws
    ∧ master_text gz bz c (res_disk (add_to_master gz bz cfg clock c s1 d))
      = Some (write_lines (sorted ws))
    ∧ master_text gz bz c
        (res_disk (add_to_master gz bz cfg clock c s2
                     (res_disk (add_to_master gz bz cfg clock c s1 d))))
      = Some (write_lines (sorted ws)).
Proof.
  intros Hsk Hre Hnb Hq1 Hq2 H1 H2.
  destruct (load_master gz bz d) as [| |existing] eqn:Hload;
    try (unfold add_to_master in H1; by rewrite Hload in H1).
  set (U := union_of d (dispatched cfg d)).
  set (st1 := collect_words_from_inputs cfg ADD clock s1 d).
  pose proof (add_quiet gz bz cfg clock c s1 d existing Hload Hq1 H1) as Hd1.
  fold U st1 in Hd1. set (d1 := res_disk (add_to_master gz bz cfg clock c s1 d)) in *.
  pose proof (collect_sound cfg ADD clock s1 d) as (Htr1 & Hm1 & _).
  fold st1 in Htr1, Hm1.
  assert (tree d1 = tree d) as Htr.
  { rewrite Hd1, tree_save_master. done. }
  assert (Forall (λ w, is_word w = true) (sorted (existing ∪ U))) as Hwords.
  { apply Forall_forall. intros w [Hw|Hw]%elem_of_sorted%elem_of_union.
    - by apply (load_master_is_word gz bz d existing).
    - by apply (union_of_is_word d (dispatched cfg d)). }
  assert (load_master gz bz d1 = Loaded (existing ∪ U)) as Hload1.
  { rewrite Hd1.
    rewrite load_master_save_master by (by apply (none_before_same c d)).
    by rewrite line_set_write_lines, list_to_set_sorted. }
  pose proof (add_quiet gz bz cfg clock c s2 d1 _ Hload1 Hq2 H2) as Hd2.
  rewrite (dispatched_tree cfg d d1), (union_of_tree d d1) in Hd2 by done.
  fold U in Hd2.
  replace (existing ∪ U ∪ U) with (existing ∪ U) in Hd2 by set_solver.
  pose proof (collect_sound cfg ADD clock s2 d1) as (_ & Hm2 & _).
  exists (existing ∪ U). split; [done|].
  split; [|split].
  - rewrite Hd2.
    rewrite load_master_save_master.
    + by rewrite line_set_write_lines, list_to_set_sorted.
    + apply (none_before_same c d1); [done|].
      rewrite Hd1.
      assert (none_before c (st_disk st1)) as Hnb1
        by (by apply (none_before_same c d)).
      by destruct c.
  - rewrite Hd1. apply master_text_save_master.
  - rewrite Hd2. apply master_text_save_master.
Qed.

(** X11. Resuming after an interruption: a create run asked to resume on
    the disk an interrupted run left, with a non-empty checkpoint and a
    non-empty enumeration, dispatches exactly the checkpoint of that run, and
    when nothing disturbs it the master it saves is the union of the words of
    those sources alone. *)
Theorem interrupt_then_resume gz bz (cfg1 cfg2 : config) (act : action)
    (clock : nat → string) (c : compression) (s1 s2 : list event) (d : disk)
    (st1 : state) (pending : list string) :
  st1 = collect_words_from_inputs cfg1 act clock s1 d →
  st_phase st1 = SysExit →
  pending = filter (λ f, f ∉ load_logged_files (log_path cfg1) (st_disk st1))
                   (dispatched cfg1 d) →
  pending ≠ [] →
  resume cfg2 = true →
  (enumerate (files cfg2) (folders cfg2) d).1 ≠ [] →
  quiet s2 →
  res_outcome (create_master gz bz cfg2 clock c s2 (st_disk st1)) = Saved →
  dispatched cfg2 (st_disk st1) = pending
  ∧ master_text gz bz c
      (res_disk (create_master gz bz cfg2 clock c s2 (st_disk st1)))
    = Some (write_lines (sorted (union_of d pending))).
Proof.
  intros Hst Hph Hp Hne Hr He Hq Hs.
  pose proof (interrupted_checkpoint cfg1 act clock s1 d st1 Hst Hph) as Hck.
  rewrite <-Hp in Hck.
  assert (tree (st_disk st1) = tree d) as Htr.
  { rewrite Hst. apply (collect_sound cfg1 act clock s1 d). }
  assert (dispatched cfg2 (st_disk st1) = pending) as Hd.
  { unfold dispatched, select_sources. rewrite (enumerate_tree _ _ d _ Htr).
    destruct (enumerate (files cfg2) (folders cfg2) d).1 as [|f fs]; [done|].
    unfold load_resume_state. rewrite Hr, Hck. by destruct pending. }
  split; [done|]. unfold create_master in *.
  apply save_result_Saved in Hs as (ws & Hfin & ->).
  apply (collect_quiet cfg2 CREATE clock s2 _ ws Hq) in Hfin as ->.
  rewrite (left_id_L ∅ (∪)), master_text_save_master, Hd.
  by rewrite (union_of_tree d _ pending Htr).
Qed.

(** ** What a run writes to its log *)

Lemma append_cons_s (x : ascii) (a b : string) :
  String x a +:+ b = String x (a +:+ b).
Proof. done. Qed.

Lemma append_assoc_s (a b c : string) : (a +:+ b) +:+ c = a +:+ (b +:+ c).
Proof.
  induction a as [|x a IH]; [done|]. by rewrite !append_cons_s, IH.
Qed.

Lemma append_nil_r_s (a : string) : a +:+ "" = a.
Proof. induction a as [|x a IH]; [done|]. by rewrite append_cons_s, IH. Qed.

Lemma ledger_tail_snoc act clock d es n p :
  ledger_tail act clock d (es ++ [(n, p)])
  = ledger_tail act clock d es
    +:+ log_line (clock n) act p (size (file_words d p)).
Proof.
  unfold ledger_tail. induction es as [|e es IH]; simpl.
  - by rewrite append_nil_r_s.
  - by rewrite IH, append_assoc_s.
Qed.

Section Ledger.

Context (cfg : config) (act : action) (clock : nat → string).

(** A step leaves the logs alone, unless it is the step of line 143. *)
Lemma step_logs e st st' :
  step cfg act clock e st = Some st' →
  logs (st_disk st') = logs (st_disk st)
  ∨ ∃ i t ws c lp,
      tasks st !! i = Some t ∧ work t = AtLog ws ∧ should_exit st = false
      ∧ log_path cfg = Some (String c lp)
      ∧ logs (st_disk st')
        = <[String c lp := default "" (logs (st_disk st) !! String c lp)
                           +:+ log_line (clock (st_tick st)) act (path t) (size ws)]>
            (logs (st_disk st)).
Proof.
  intros H. unfold step in H. destruct (is_live st); [|done].
  apply fmap_Some in H as (s1 & H & ->). simpl.
  destruct e as [|i|i|i|]; simpl in H.
  - left. by injection H as <-.
  - unfold work_step in H.
    destruct (tasks st !! i) as [t|] eqn:Hi; [|done]. simpl in H.
    destruct (work t) as [|[|line rest] ws|ws|ws] eqn:Hw.
    + left. repeat (simplify_option_eq || case_match); done.
    + left. by simplify_eq.
    + left. destruct (should_exit st); by simplify_eq.
    + destruct (log_path cfg) as [[|c lp]|] eqn:Hlp; [left; by simplify_eq| |
        left; by simplify_eq].
      destruct (should_exit st) eqn:Hf; simplify_eq; [by left|].
      right. by exists i, t, ws, c, lp.
    + done.
  - left. unfold fault_step in H. repeat (simplify_option_eq || case_match); done.
  - left. unfold yield_step in H. repeat (simplify_option_eq || case_match); done.
  - left. apply join_step_finish in H as ->. unfold finish.
    by destruct (should_exit st).
Qed.

Lemma step_ledger d e st st' :
  sound_inv d st → ledger_inv cfg act clock d st →
  step cfg act clock e st = Some st' → ledger_inv cfg act clock d st'.
Proof.
  intros Hsound Hinv H. pose proof (step_paths cfg act clock e st st' H) as Hp.
  unfold ledger_inv in *. rewrite Hp.
  destruct (step_logs e st st' H)
    as [Hsame|(i & t & ws & c & lp & Hi & Hw & Hf & Hlp & Hlogs)].
  - by rewrite Hsame.
  - rewrite Hlp in *. destruct Hinv as (es & Htext & Hes & Hother).
    destruct Hsound as (_ & _ & Hts & _).
    pose proof (proj1 (Forall_lookup _ _) Hts i t Hi) as Ht.
    unfold task_sound in Ht. rewrite Hw, Hf in Ht.
    destruct Ht as (Hfile & _ & Hall). specialize (Hall eq_refl). subst ws.
    exists (es ++ [(st_tick st, path t)]). split; [|split].
    + rewrite Hlogs, lookup_insert_eq. simpl.
      by rewrite Htext, ledger_tail_snoc, append_assoc_s.
    + apply Forall_app. split; [done|]. constructor; [|constructor].
      simpl. split; [|done]. apply list_elem_of_fmap. exists t.
      split; [done|]. by apply list_elem_of_lookup_2 in Hi.
    + intros q Hq. rewrite Hlogs, lookup_insert_ne by done. by apply Hother.
Qed.

Lemma exec_ledger d sched st :
  sound_inv d st → ledger_inv cfg act clock d st →
  ledger_inv cfg act clock d (exec cfg act clock sched st).
Proof.
  intros Hs Hl.
  apply (exec_invariant cfg act clock
           (λ s, sound_inv d s ∧ ledger_inv cfg act clock d s)); [|done].
  intros e s s' [Hs1 Hl1] Hstep. split.
  - by eapply step_sound.
  - by eapply step_ledger.
Qed.

Lemma ledger_inv_start d ts ws ph out n :
  ledger_inv cfg act clock d (State d false ts ws ph out n).
Proof.
  unfold ledger_inv. simpl. destruct (log_path cfg) as [[|c lp]|]; try done.
  exists []. simpl. by rewrite append_nil_r_s.
Qed.

Lemma collect_ledger sched d :
  ledger_inv cfg act clock d (collect_words_from_inputs cfg act clock sched d).
Proof.
  unfold collect_words_from_inputs.
  destruct (select_sources cfg d) as [all_files|].
  - apply exec_ledger; [apply start_sound|].
    unfold start. case_bool_decide; apply ledger_inv_start.
  - apply ledger_inv_start.
Qed.

End Ledger.

(** X12. Whatever the schedule, signals and failing reads included, what a
    run appends to its log is a sequence of entries for dispatched regular
    files, each with the number of distinct words of the whole file: a source
    read in part only is never logged.  The other log files are untouched. *)
Theorem ledger_complete (cfg : config) (act : action) (clock : nat → string)
    (sched : list event) (d : disk) (lp : string) :
  log_path cfg = Some lp → lp ≠ "" →
  ∃ es,
    default "" (logs (st_disk (collect_words_from_inputs cfg act clock sched d))
                !! lp)
    = default "" (logs d !! lp) +:+ ledger_tail act clock d es
    ∧ Forall (λ e, e.2 ∈ dispatched cfg d ∧ isfile d e.2 = true) es
    ∧ ∀ q, q ≠ lp →
        logs (st_disk (collect_words_from_inputs cfg act clock sched d)) !! q
        = logs d !! q.
Proof.
  intros Hlp Hne. pose proof (collect_ledger cfg act clock sched d) as Hinv.
  unfold ledger_inv in Hinv. rewrite Hlp in Hinv.
  destruct lp as [|c lp]; [done|]. destruct Hinv as (es & Htext & Hes & Hother).
  exists es. split; [done|]. split; [|done].
  eapply Forall_impl; [exact Hes|]. intros e [He Hf]. split; [|done].
  by apply (collect_paths_subseteq cfg act clock sched d).
Qed.

(** X13. Without a log path a run neither writes nor reads a log: whatever
    the schedule the log files are left as they were, and with skip-logged
    requested the sources dispatched are those a run without it
    dispatches. *)
Theorem no_log_path (cfg : config) (act : action) (clock : nat → string)
    (sched : list event) (d : disk) :
  truthy (log_path cfg) = false →
  logs (st_disk (collect_words_from_inputs cfg act clock sched d)) = logs d
  ∧ dispatched cfg d
    = dispatched (Config (files cfg) (folders cfg) (threads cfg) (log_path cfg)
                         false (resume cfg)) d.
Proof.
  intros Hlp. split.
  - pose proof (collect_ledger cfg act clock sched d) as Hinv.
    unfold ledger_inv in Hinv. by destruct (log_path cfg) as [[|c lp]|].
  - unfold dispatched, select_sources. simpl. rewrite Hlp.
    by rewrite andb_false_r.
Qed.

(** ** Reading the log back *)

Lemma universal_newlines_cons2 c x a :
  universal_newlines (String c (String x a))
  = if Ascii.eqb c CR
    then if Ascii.eqb x LF then String LF (universal_newlines a)
         else String LF (universal_newlines (String x a))
    else String c (universal_newlines (String x a)).
Proof. done. Qed.

Lemma universal_newlines_cons1 c :
  universal_newlines (String c "")
  = if Ascii.eqb c CR then String LF "" else String c "".
Proof. done. Qed.

Lemma LF_not_CR : Ascii.eqb LF CR = false.
Proof. done. Qed.

Lemma complete_text_tail c x a :
  complete_text (String c (String x a)) → complete_text (String x a).
Proof. intros [?|H]; [done|]. by right. Qed.

Lemma complete_text_tail2 c x a :
  complete_text (String c (String x a)) → complete_text a.
Proof.
  intros [?|H]; [done|]. destruct a as [|y a]; [by left|]. by right.
Qed.

Lemma complete_text_single c : complete_text (String c "") → c = LF.
Proof. intros [?|[= ->]]; done. Qed.

Lemma universal_newlines_app_pair a :
  (complete_text a → ∀ b,
     universal_newlines (a +:+ b) = universal_newlines a +:+ universal_newlines b)
  ∧ ∀ c, complete_text (String c a) → ∀ b,
      universal_newlines (String c a +:+ b)
      = universal_newlines (String c a) +:+ universal_newlines b.
Proof.
  induction a as [|x a [IH1 IH2]].
  - split; [done|]. intros c ->%complete_text_single b.
    rewrite append_cons_s. simpl. done.
  - split; [apply IH2|]. intros c Hc b.
    rewrite !append_cons_s, !universal_newlines_cons2.
    destruct (Ascii.eqb c CR); [destruct (Ascii.eqb x LF)|];
      rewrite append_cons_s; f_equal.
    + apply IH1. by eapply complete_text_tail2.
    + rewrite <-append_cons_s. apply IH2. by eapply complete_text_tail.
    + rewrite <-append_cons_s. apply IH2. by eapply complete_text_tail.
Qed.

Lemma universal_newlines_app a b :
  complete_text a →
  universal_newlines (a +:+ b) = universal_newlines a +:+ universal_newlines b.
Proof. intros Ha. by apply (proj1 (universal_newlines_app_pair a)). Qed.

Lemma last_char_cons c s : s ≠ "" → last_char (String c s) = last_char s.
Proof. by destruct s. Qed.

Lemma complete_text_cons c s :
  s ≠ "" → complete_text s → complete_text (String c s).
Proof.
  intros Hne [?|H]; [done|]. right. by rewrite last_char_cons.
Qed.

Lemma universal_newlines_nonempty c a : universal_newlines (String c a) ≠ "".
Proof.
  destruct a as [|x a].
  - rewrite universal_newlines_cons1. by destruct (Ascii.eqb c CR).
  - rewrite universal_newlines_cons2.
    by destruct (Ascii.eqb c CR); [destruct (Ascii.eqb x LF)|].
Qed.

Lemma complete_text_LF s : complete_text s → complete_text (String LF s).
Proof.
  destruct s as [|x s]; [by right|]. by apply complete_text_cons.
Qed.

Lemma universal_newlines_complete_pair a :
  (complete_text a → complete_text (universal_newlines a))
  ∧ ∀ c, complete_text (String c a) →
         complete_text (universal_newlines (String c a)).
Proof.
  induction a as [|x a [IH1 IH2]].
  - split; [done|]. intros c ->%complete_text_single. by right.
  - split; [apply IH2|]. intros c Hc.
    rewrite universal_newlines_cons2.
    destruct (Ascii.eqb c CR); [destruct (Ascii.eqb x LF)|].
    + apply complete_text_LF, IH1. by eapply complete_text_tail2.
    + apply complete_text_LF, IH2. by eapply complete_text_tail.
    + apply complete_text_cons; [apply universal_newlines_nonempty|].
      apply IH2. by eapply complete_text_tail.
Qed.

Lemma split_lines_nonempty c a : split_lines (String c a) ≠ [].
Proof.
  simpl. destruct (Ascii.eqb c LF); [done|]. by destruct (split_lines a).
Qed.

Lemma split_lines_app a b :
  complete_text a → split_lines (a +:+ b) = split_lines a ++ split_lines b.
Proof.
  induction a as [|c a IH]; [done|]. intros Hc.
  rewrite append_cons_s. simpl.
  destruct a as [|x a].
  - apply complete_text_single in Hc as ->. done.
  - rewrite IH by by eapply complete_text_tail.
    destruct (Ascii.eqb c LF); [done|].
    pose proof (split_lines_nonempty x a).
    by destruct (split_lines (String x a)).
Qed.

(** Appending to a text whose last line is terminated appends its lines. *)
Lemma file_lines_app a b :
  complete_text a → file_lines (a +:+ b) = file_lines a ++ file_lines b.
Proof.
  intros Ha. unfold file_lines. rewrite universal_newlines_app by done.
  apply split_lines_app. by apply (proj1 (universal_newlines_complete_pair a)).
Qed.

Lemma last_char_app a b : b ≠ "" → last_char (a +:+ b) = last_char b.
Proof.
  intros Hb. induction a as [|c a IH]; [done|].
  rewrite append_cons_s, last_char_cons; [done|].
  destruct a; [done|done].
Qed.

Lemma first_char_app a b : a ≠ "" → first_char (a +:+ b) = first_char a.
Proof. by destruct a. Qed.

Lemma pretty_N_char_digit x : mem_char (pretty_N_char x) digits = true.
Proof. unfold pretty_N_char. by repeat case_match. Qed.

Lemma mem_char_pretty_N_go c x s :
  mem_char c (pretty_N_go x s) = true →
  mem_char c s = true ∨ mem_char c digits = true.
Proof.
  revert s. induction (N.lt_wf_0 x) as [x _ IH]; intros s.
  destruct (decide (x = 0)%N) as [->|Hx]; [by left|].
  rewrite pretty_N_go_step by lia. intros H.
  apply IH in H as [H|H]; [|by right|apply N.div_lt; lia].
  simpl in H. apply orb_true_iff in H as [H|H]; [|by left].
  right. apply Ascii.eqb_eq in H as ->. apply pretty_N_char_digit.
Qed.

Lemma mem_char_pretty c (n : nat) :
  mem_char c (pretty n) = true → mem_char c digits = true.
Proof.
  unfold pretty, pretty_nat, pretty, pretty_N.
  case_decide; [|by intros [Hc|Hc]%mem_char_pretty_N_go].
  simpl. rewrite orb_false_r. by intros ->%Ascii.eqb_eq.
Qed.

Lemma mem_char_pretty_false c (n : nat) :
  mem_char c digits = false → mem_char c (pretty n) = false.
Proof.
  intros Hc. apply not_true_is_false. intros H%mem_char_pretty. congruence.
Qed.

Lemma log_line_body now a p n :
  log_line now a p n = entry_body now a p n +:+ String LF "".
Proof. unfold log_line, entry_body. by rewrite !append_assoc_s. Qed.

Lemma entry_body_one_line now a p n :
  clean_stamp now = true → clean_path p = true →
  one_line (entry_body now a p n) = true.
Proof.
  unfold clean_stamp, clean_path, one_line, entry_body.
  rewrite !andb_true_iff, !negb_true_iff.
  intros [[[_ HnL] HnC] _] [[[_ HpL] HpC] _].
  rewrite !mem_char_app, HnL, HnC, HpL, HpC.
  rewrite !(mem_char_pretty_false _ n) by done.
  by destruct a.
Qed.

Lemma split_on_app a b :
  mem_char BAR a = false →
  split_on BAR (a +:+ String BAR b) = a :: split_on BAR b.
Proof.
  induction a as [|c a IH]; [done|]. simpl.
  rewrite Ascii.eqb_sym. intros [Hc Ha]%orb_false_elim.
  rewrite Hc. by rewrite (IH Ha).
Qed.

(** A field of the entry, closed by " |". *)
Lemma split_on_field a rest :
  mem_char BAR a = false →
  split_on BAR (a +:+ String " " (String BAR rest))
  = (a +:+ " ") :: split_on BAR rest.
Proof.
  intros Ha.
  replace (a +:+ String " " (String BAR rest))
    with ((a +:+ " ") +:+ String BAR rest) by (by rewrite append_assoc_s).
  apply split_on_app. rewrite mem_char_app, Ha. done.
Qed.

Lemma strip_padded p : strip (String " " p +:+ " ") = strip p.
Proof.
  unfold strip. rewrite rstrip_app_space by done. simpl.
  destruct (rstrip p) as [|c r]; [done|]. done.
Qed.

Lemma strip_log_line now a p n :
  clean_stamp now = true →
  strip (log_line now a p n) = entry_body now a p n.
Proof.
  unfold clean_stamp. rewrite !andb_true_iff. intros [_ Hfirst].
  destruct (first_char now) as [c|] eqn:Hc; [|done].
  apply negb_true_iff in Hfirst.
  rewrite log_line_body. unfold strip. rewrite rstrip_app_space by done.
  assert (now ≠ "") as Hne by (by destruct now).
  rewrite (rstrip_id _ "s").
  - apply (lstrip_id _ c); [|done]. unfold entry_body.
    by rewrite first_char_app.
  - unfold entry_body. rewrite <-!append_assoc_s. by rewrite last_char_app.
  - done.
Qed.

(** The fields of an entry: the path is the third. *)
Lemma split_on_entry now a p n :
  mem_char BAR now = false → mem_char BAR p = false →
  ∃ f0 f1 rest,
    split_on BAR (entry_body now a p n)
    = f0 :: f1 :: (String " " p +:+ " ") :: rest.
Proof.
  intros Hn Hp. unfold entry_body.
  change (now +:+ " | " +:+ ljust 6 (action_tag a) +:+ " | " +:+ p +:+ " | "
          +:+ pretty n +:+ " words")
    with (now +:+ String " " (String BAR (
            (String " " (ljust 6 (action_tag a))) +:+ String " " (String BAR (
              (String " " p) +:+ String " " (String BAR (
                String " " (pretty n +:+ " words")))))))).
  rewrite split_on_field by done.
  rewrite split_on_field by (by destruct a).
  rewrite split_on_field by (simpl; by rewrite Hp).
  by eexists _, _, _.
Qed.

(** What line 111-114 makes of an entry. *)
Lemma logged_add_log_line logged now a p n :
  clean_stamp now = true → clean_path p = true →
  logged_add logged (log_line now a p n) = {[ p ]} ∪ logged.
Proof.
  intros Hnow Hp. unfold logged_add. rewrite strip_log_line by done.
  unfold clean_stamp, clean_path in *.
  rewrite !andb_true_iff, !negb_true_iff in Hnow, Hp.
  destruct Hnow as [[[HnB _] _] _]. destruct Hp as [[[HpB _] _] Hs].
  apply bool_decide_eq_true in Hs.
  destruct (split_on_entry now a p n HnB HpB) as (f0 & f1 & rest & ->).
  rewrite bool_decide_true by (simpl; lia).
  change ((f0 :: f1 :: (String " " p +:+ " ") :: rest) !! 2)
    with (Some (String " " p +:+ " ")).
  simpl. by rewrite strip_padded, Hs.
Qed.

Lemma file_lines_log_line now a p n :
  clean_stamp now = true → clean_path p = true →
  file_lines (log_line now a p n) = [log_line now a p n].
Proof.
  intros Hnow Hp. rewrite log_line_body.
  apply (file_lines_write_lines [entry_body now a p n]).
  constructor; [|constructor]. by apply entry_body_one_line.
Qed.

(** X14. The ledger gives back what it was given: after [log_action] has
    appended an entry for a path that holds neither the delimiter nor a line
    end and has no white space at its ends, to a log that is missing or whose
    last line is terminated, [load_logged_files] finds that path beside those
    it found before, and the last line of the log is terminated again. *)
Theorem ledger_round_trip (lp now : string) (a : action) (p : string)
    (n : nat) (d : disk) :
  lp ≠ "" →
  clean_stamp now = true →
  clean_path p = true →
  complete_text (default "" (logs d !! lp)) →
  load_logged_files (Some lp) (log_action lp now a p n d)
  = {[ p ]} ∪ load_logged_files (Some lp) d
  ∧ complete_text (default "" (logs (log_action lp now a p n d) !! lp)).
Proof.
  intros Hlp Hnow Hp Hold. destruct lp as [|c lp]; [done|].
  unfold load_logged_files, log_action. simpl. rewrite lookup_insert_eq. simpl.
  split.
  - rewrite file_lines_app by done. rewrite file_lines_log_line by done.
    rewrite foldl_app. simpl. rewrite logged_add_log_line by done.
    by destruct (logs d !! String c lp).
  - right. rewrite log_line_body, <-append_assoc_s. by rewrite last_char_app.
Qed.

(** ** The command line *)

(** The steps of the pool read the thread count and the log path of the
    configuration, and nothing else of it. *)
Lemma step_config cfg cfg' act clock e st :
  threads cfg' = threads cfg → log_path cfg' = log_path cfg →
  step cfg' act clock e st = step cfg act clock e st.
Proof.
  intros Ht Hl. unfold step, work_step, fault_step, join_step, finish.
  by rewrite Ht, Hl.
Qed.

Lemma exec_config cfg cfg' act clock sched st :
  threads cfg' = threads cfg → log_path cfg' = log_path cfg →
  exec cfg' act clock sched st = exec cfg act clock sched st.
Proof.
  intros Ht Hl. unfold exec. apply foldl_same. intros s e.
  by rewrite (step_config cfg cfg').
Qed.

(** Without a log path the skip filter is not applied. *)
Lemma collect_without_skip cfg act clock sched d :
  truthy (log_path cfg) = false →
  collect_words_from_inputs
    (Config (files cfg) (folders cfg) (threads cfg) (log_path cfg) false
            (resume cfg)) act clock sched d
  = collect_words_from_inputs cfg act clock sched d.
Proof.
  intros Hlp. unfold collect_words_from_inputs, select_sources. simpl.
  rewrite Hlp, andb_false_r.
  destruct (enumerate (files cfg) (folders cfg) d).1 as [|f fs]; [done|].
  unfold start. simpl. by apply exec_config.
Qed.

Lemma logs_save_result gz bz seed c st :
  logs (res_disk (save_result gz bz seed c st)) = logs (st_disk st).
Proof.
  unfold save_result. destruct (st_phase st); simpl; try done. by destruct c.
Qed.

Lemma collect_logs_falsy cfg act clock sched d :
  truthy (log_path cfg) = false →
  logs (st_disk (collect_words_from_inputs cfg act clock sched d)) = logs d.
Proof.
  intros Hlp. pose proof (collect_ledger cfg act clock sched d) as Hinv.
  unfold ledger_inv in Hinv. by destruct (log_path cfg) as [[|c lp]|].
Qed.

(** X15. Logging is switched by [--log] alone: without it, whatever
    [--log-file] names, [--skip-logged] changes nothing in what the program
    does, and no log file is written. *)
Theorem skip_needs_log gz bz (clock : nat → string) (a : arguments)
    (sched : list event) (d : disk) :
  arg_log a = false →
  main gz bz clock (without_skip a) sched d = main gz bz clock a sched d
  ∧ ∀ r, main gz bz clock a sched d = Ran r → logs (res_disk r) = logs d.
Proof.
  intros Hlog. split.
  - unfold main, without_skip. simpl.
    destruct (arg_version a); [done|]. destruct (arg_about a); [done|].
    destruct (given (arg_create a) || given (arg_create_folder a)).
    + f_equal. unfold create_master. f_equal.
      unfold config_of. simpl. rewrite Hlog.
      by rewrite <-(collect_without_skip
                      (Config _ _ _ None (arg_skip_logged a) _)).
    + destruct (given (arg_add a) || given (arg_add_folder a)); [|done].
      f_equal. unfold add_to_master.
      destruct (load_master gz bz d); [done..|]. f_equal.
      unfold config_of. simpl. rewrite Hlog.
      by rewrite <-(collect_without_skip
                      (Config _ _ _ None (arg_skip_logged a) _)).
  - intros r. unfold main.
    destruct (arg_version a); [done|]. destruct (arg_about a); [done|].
    assert (∀ fs fo, truthy (log_path (config_of a fs fo)) = false) as Hlp.
    { intros fs fo. unfold config_of. simpl. by rewrite Hlog. }
    destruct (given (arg_create a) || given (arg_create_folder a)).
    + intros [= <-]. unfold create_master.
      rewrite logs_save_result. by apply collect_logs_falsy.
    + destruct (given (arg_add a) || given (arg_add_folder a)); [|done].
      intros [= <-]. unfold add_to_master.
      destruct (load_master gz bz d); [done..|].
      rewrite logs_save_result. by apply collect_logs_falsy.
Qed.

(** ** Concrete runs of the further properties *)

Lemma saved_words_sound_witness :
  res_outcome (create_master ex_gz ex_bz fail_cfg ex_clock Plain fail_sched
                 two_lines) = Saved
  ∧ ∃ ws,
      master_text ex_gz ex_bz Plain
        (res_disk (create_master ex_gz ex_bz fail_cfg ex_clock Plain fail_sched
                     two_lines))
      = Some (write_lines (sorted ws))
      ∧ ws ⊆ union_of two_lines (dispatched fail_cfg two_lines)
      ∧ ∀ w, w ∈ ws → is_word w = true.
Proof.
  split; [vm_compute; reflexivity|].
  apply (saved_words_sound ex_gz ex_bz fail_cfg ex_clock Plain fail_sched
           two_lines).
  vm_compute. reflexivity.
Defined.

Lemma master_only_when_saved_witness :
  res_outcome (create_master ex_gz ex_bz abc_cfg ex_clock Gzip abc_sched abc_old_disk)
  ≠ Saved
  ∧ same_masters abc_old_disk
      (res_disk (create_master ex_gz ex_bz abc_cfg ex_clock Gzip abc_sched
                   abc_old_disk)).
Proof.
  assert (res_outcome (create_master ex_gz ex_bz abc_cfg ex_clock Gzip abc_sched
                         abc_old_disk) ≠ Saved) as Hne.
  { vm_compute. discriminate. }
  split; [exact Hne|].
  apply (master_only_when_saved ex_gz ex_bz abc_cfg ex_clock Gzip
           abc_sched abc_old_disk _ (or_introl eq_refl) Hne).
Defined.

Lemma signal_stops_run_witness :
  is_live (collect_words_from_inputs abc_cfg CREATE ex_clock abc_prefix abc_disk)
  = true
  ∧ ∃ s2, quiet s2
      ∧ res_outcome (create_master ex_gz ex_bz abc_cfg ex_clock Plain
                       (abc_prefix ++ Signal :: s2) abc_disk) = Interrupted.
Proof.
  split; [vm_compute; reflexivity|].
  apply (proj2 (signal_stops_run ex_gz ex_bz abc_cfg ex_clock Plain abc_prefix
                  abc_disk ltac:(vm_compute; reflexivity))).
Defined.

Lemma run_can_end_witness :
  ∃ s2, quiet s2
    ∧ (res_outcome (create_master ex_gz ex_bz fail_cfg ex_clock Plain
                      ([Work 0; Fault 0] ++ s2) two_lines) = Saved
       ∨ res_outcome (create_master ex_gz ex_bz fail_cfg ex_clock Plain
                        ([Work 0; Fault 0] ++ s2) two_lines) = Interrupted).
Proof.
  apply (run_can_end ex_gz ex_bz fail_cfg ex_clock Plain [Work 0; Fault 0]
           two_lines).
  reflexivity.
Defined.

Lemma checkpoint_after_return_witness :
  resume_file (st_disk (collect_words_from_inputs ab_cfg CREATE ex_clock
                          ab_sched stale_disk)) = None
  ∧ resume_file (st_disk (collect_words_from_inputs missing_cfg CREATE ex_clock
                            ab_sched stale_disk)) = Some ["old.txt"].
Proof.
  split.
  - apply (checkpoint_after_return ab_cfg CREATE ex_clock ab_sched stale_disk
             {[ "bar"; "baz"; "foo" ]}).
    vm_compute. reflexivity.
  - apply (checkpoint_after_return missing_cfg CREATE ex_clock ab_sched
             stale_disk ∅).
    vm_compute. reflexivity.
Defined.

Lemma create_from_nothing_witness :
  master_text ex_gz ex_bz Plain old_disk = Some ("old" +:+ nl)
  ∧ res_outcome (create_master ex_gz ex_bz missing_cfg ex_clock Plain [] old_disk)
    = Saved
  ∧ master_text ex_gz ex_bz Plain
      (res_disk (create_master ex_gz ex_bz missing_cfg ex_clock Plain [] old_disk))
    = Some "".
Proof.
  split; [reflexivity|].
  destruct (create_from_nothing ex_gz ex_bz missing_cfg ex_clock Plain []
              old_disk ltac:(vm_compute; reflexivity)) as (Hr & Ht & _).
  rewrite Hr. split; [reflexivity|exact Ht].
Defined.

Lemma create_without_threads_witness :
  create_master ex_gz ex_bz zero_cfg ex_clock Plain ab_sched ab_disk
  = Result Failed ab_disk [].
Proof.
  rewrite (create_without_threads ex_gz ex_bz zero_cfg ex_clock Plain ab_sched
             ab_disk ltac:(reflexivity) ltac:(vm_compute; discriminate)).
  vm_compute. reflexivity.
Defined.

Lemma add_union_witness :
  master_text ex_gz ex_bz Bz2
    (res_disk (add_to_master ex_gz ex_bz add_cfg ex_clock Bz2 add_sched add_disk))
  = Some (write_lines (sorted ({[ "a"; "b" ]}
                               ∪ union_of add_disk (dispatched add_cfg add_disk)))).
Proof.
  assert (load_master ex_gz ex_bz add_disk = Loaded ({[ "a"; "b" ]} : gset string))
    as Hload by (vm_compute; reflexivity).
  apply (proj2 (add_union ex_gz ex_bz add_cfg ex_clock Bz2 add_disk
                  {[ "a"; "b" ]} Hload ltac:(reflexivity)) add_sched).
  - repeat constructor.
  - vm_compute. reflexivity.
Defined.

Lemma add_twice_witness :
  ∃ ws,
    load_master ex_gz ex_bz
      (res_disk (add_to_master ex_gz ex_bz add_cfg ex_clock Gzip add_sched
                   gz_disk))
    = Loaded ws
    ∧ load_master ex_gz ex_bz
        (res_disk (add_to_master ex_gz ex_bz add_cfg ex_clock Gzip add_sched
                     (res_disk (add_to_master ex_gz ex_bz add_cfg ex_clock Gzip
                                  add_sched gz_disk))))
      = Loaded ws
    ∧ master_text ex_gz ex_bz Gzip
        (res_disk (add_to_master ex_gz ex_bz add_cfg ex_clock Gzip add_sched
                     gz_disk))
      = Some (write_lines (sorted ws))
    ∧ master_text ex_gz ex_bz Gzip
        (res_disk (add_to_master ex_gz ex_bz add_cfg ex_clock Gzip add_sched
                     (res_disk (add_to_master ex_gz ex_bz add_cfg ex_clock Gzip
                                  add_sched gz_disk))))
      = Some (write_lines (sorted ws)).
Proof.
  apply (add_twice ex_gz ex_bz add_cfg ex_clock Gzip add_sched add_sched
           gz_disk).
  - reflexivity.
  - reflexivity.
  - reflexivity.
  - repeat constructor.
  - repeat constructor.
  - vm_compute. reflexivity.
  - vm_compute. reflexivity.
Defined.

Lemma interrupt_then_resume_witness :
  dispatched abc_resume_cfg
    (st_disk (collect_words_from_inputs abc_cfg CREATE ex_clock abc_sched abc_disk))
  = ["B.txt"; "C.txt"]
  ∧ master_text ex_gz ex_bz Plain
      (res_disk (create_master ex_gz ex_bz abc_resume_cfg ex_clock Plain bc_sched
                   (st_disk (collect_words_from_inputs abc_cfg CREATE ex_clock
                               abc_sched abc_disk))))
    = Some (write_lines (sorted (union_of abc_disk ["B.txt"; "C.txt"]))).
Proof.
  apply (interrupt_then_resume ex_gz ex_bz abc_cfg abc_resume_cfg CREATE
           ex_clock Plain abc_sched bc_sched abc_disk _ ["B.txt"; "C.txt"]
           eq_refl).
  - vm_compute. reflexivity.
  - vm_compute. reflexivity.
  - discriminate.
  - reflexivity.
  - vm_compute. discriminate.
  - repeat constructor.
  - vm_compute. reflexivity.
Defined.

Example resumed_master :
  master_txt
    (res_disk (create_master ex_gz ex_bz abc_resume_cfg ex_clock Plain bc_sched
                 (st_disk (collect_words_from_inputs abc_cfg CREATE ex_clock
                             abc_sched abc_disk))))
  = Some ("baz" +:+ nl +:+ "qux" +:+ nl).
Proof. vm_compute. reflexivity. Qed.

Lemma ledger_complete_witness :
  ∃ es,
    default "" (logs (st_disk (collect_words_from_inputs abc_cfg CREATE ex_clock
                                 abc_sched abc_disk)) !! "listman.log")
    = default "" (logs abc_disk !! "listman.log")
      +:+ ledger_tail CREATE ex_clock abc_disk es
    ∧ Forall (λ e, e.2 ∈ dispatched abc_cfg abc_disk
                   ∧ isfile abc_disk e.2 = true) es
    ∧ ∀ q, q ≠ "listman.log" →
        logs (st_disk (collect_words_from_inputs abc_cfg CREATE ex_clock
                         abc_sched abc_disk)) !! q
        = logs abc_disk !! q.
Proof.
  apply (ledger_complete abc_cfg CREATE ex_clock abc_sched abc_disk
           "listman.log").
  - reflexivity.
  - discriminate.
Defined.

Lemma no_log_path_witness :
  logs (st_disk (collect_words_from_inputs empty_log_cfg CREATE ex_clock
                   add_sched (skip_disk None))) = logs (skip_disk None)
  ∧ dispatched empty_log_cfg (skip_disk None) = ["A.txt"; "B.txt"].
Proof.
  destruct (no_log_path empty_log_cfg CREATE ex_clock add_sched (skip_disk None)
              eq_refl) as [Hl Hd].
  split; [exact Hl|]. rewrite Hd. vm_compute. reflexivity.
Defined.

Lemma ledger_round_trip_witness :
  load_logged_files (Some "listman.log")
    (log_action "listman.log" "2024-05-01T10:00:00" ADD "lists/new.txt" 7
       (skip_disk None))
  = {[ "lists/new.txt" ]} ∪ load_logged_files (Some "listman.log") (skip_disk None).
Proof.
  apply (ledger_round_trip "listman.log" "2024-05-01T10:00:00" ADD
           "lists/new.txt" 7 (skip_disk None)).
  - discriminate.
  - reflexivity.
  - vm_compute. reflexivity.
  - right. vm_compute. reflexivity.
Defined.

Lemma skip_needs_log_witness :
  main ex_gz ex_bz ex_clock (without_skip skip_args) add_sched (skip_disk None)
  = main ex_gz ex_bz ex_clock skip_args add_sched (skip_disk None).
Proof.
  apply (skip_needs_log ex_gz ex_bz ex_clock skip_args add_sched
           (skip_disk None)).
  reflexivity.
Defined.

(** Without [--log], the path the log names is dispatched all the same. *)
Example skip_without_log :
  dispatched (config_of skip_args (arg_create skip_args) None) (skip_disk None)
  = ["A.txt"; "B.txt"].
Proof. vm_compute. reflexivity. Qed.
